(** * watchmedo: the orchestration layer of the [watchdog] command-line tool

    A shallow embedding of [src/watchdog/watchmedo.py].  Python values that
    travel through the code are kept as a small value type, exceptions as a
    sum, and the mutable process state ([sys.path], the signal dispositions,
    the observers) as an explicit world threaded by a state-and-exception
    monad.  Every call on an observer, every mutation of [sys.path] and
    every action on the supervised child is also appended to a trace, which
    is what the ordering properties talk about.

    What lies outside the file is an input of the model: [load_class], the
    outcome of the calls on an observer, the configuration files, the order
    in which a set yields its elements, the signals and file-system events
    that arrive while the main thread sleeps, and the behaviour of the child
    processes.  The handler class of
    [auto_restart] is not among the sources and is modelled from the
    specification. *)

From Stdlib Require Import Ascii.
From stdpp Require Import gmap strings list.

#[local] Set Warnings "-register-all".
Local Open Scope Z_scope.

(** ** Python values *)

Module Py.

(** The values that reach this module from the YAML configuration and
    from handler attributes. *)
Inductive pyval : Type :=
| PyNone
| PyBool (b : bool)
| PyInt (z : Z)
| PyStr (s : string)
| PyList (items : list pyval)
| PyDict (items : list (string * pyval)).

(** Truth value testing, as [bool(v)] does it for these types. *)
Definition truthy (v : pyval) : bool :=
  match v with
  | PyNone => false
  | PyBool b => b
  | PyInt z => negb (z =? 0)
  | PyStr s => negb (String.eqb s "")
  | PyList items => negb (Nat.eqb (length items) 0)
  | PyDict items => negb (Nat.eqb (length items) 0)
  end.

(** [a or b] *)
Definition py_or (a b : pyval) : pyval := if truthy a then a else b.

(** An object: its class name and the attributes [getattr] can see. *)
Record pyobj : Type := PyObj {
  ob_type : string;
  ob_dict : gmap string pyval
}.

(** [getattr(o, name, default)] *)
Definition getattr (o : pyobj) (name : string) (default : pyval) : pyval :=
  match ob_dict o !! name with
  | Some v => v
  | None => default
  end.

(** Exceptions raised or caught in this module. *)
Inductive exn : Type :=
| WatchdogShutdown
| OSError (errno : Z) (filename : string)
| KeyError (key : string) (filename : string)
| KeyboardInterrupt
| Exception (name : string).

(** What ends a run without any [except] or [finally] clause seeing it:
    the process is killed by a signal, or the run is still blocked in a
    loop when the recorded input ends. *)
Inductive halt : Type :=
| Killed (signum : Z)
| Blocked.

Inductive result (A : Type) : Type :=
| Ok (a : A)
| Raise (e : exn)
| Halt (h : halt).
Arguments Ok {A} a.
Arguments Raise {A} e.
Arguments Halt {A} h.

(** [l.insert(index, x)] for an index that fits a C [ssize_t]: a negative
    index counts from the end, and an index out of range is clamped to the
    nearest end.  For an index that does not fit, [list.insert] raises
    [OverflowError]; the statements that let the index range beyond the
    length of the list keep it within [fits_index]. *)
Definition py_insert {A : Type} (index : Z) (x : A) (l : list A) : list A :=
  let n := Z.of_nat (length l) in
  let where_ := if index <? 0 then Z.max 0 (index + n) else Z.min index n in
  take (Z.to_nat where_) l ++ x :: drop (Z.to_nat where_) l.

(** An index that every build of the interpreter takes: a C [ssize_t] is at
    least 32 bits wide. *)
Definition fits_index (index : Z) : Prop := - 2 ^ 31 ≤ index < 2 ^ 31.

(** [s.split(sep)] for a separator of one character. *)
Fixpoint str_split (sep : ascii) (s : string) : list string :=
  match s with
  | EmptyString => [EmptyString]
  | String c s' =>
      if Ascii.eqb c sep then EmptyString :: str_split sep s'
      else match str_split sep s' with
           | [] => [String c EmptyString]
           | field :: fields => String c field :: fields
           end
  end.

(** A class, seen from its callers: [C( **kwargs )] returns an instance
    or raises. *)
Definition pyclass : Type := pyval → result pyobj.

End Py.
Import Py.

Definition ENOENT : Z := 2.
Definition SIGINT : Z := 2.
Definition SIGKILL : Z := 9.
Definition SIGTERM : Z := 15.
Definition CONFIG_KEY_TRICKS : string := "tricks".
Definition CONFIG_KEY_PYTHON_PATH : string := "python-path".

(** ** The world and its monad *)

(** What can be installed for a signal number: the two constants of the
    [signal] module, the interpreter's own handler for SIGINT, and the one
    handler this module defines. *)
Inductive disposition : Type :=
| SIG_DFL
| SIG_IGN
| Default_int_handler
| Handler_termination_signal.

(** The observer classes the commands choose from. *)
Inductive observer_class : Type :=
| PollingObserver
| KqueueObserver
| WindowsApiAsyncObserver
| WindowsApiObserver
| InotifyObserver
| FSEventsObserver
| Observer.

(** One entry of the trace: a mutation of [sys.path], a call on an observer
    (recorded when it is made, whether it returns or raises), a sleep of the
    poll loop, or an action on the supervised child process. *)
Inductive event : Type :=
| ESysPathInsert (index : Z) (pathname : string)
| ENewObserver (o : nat) (cls : observer_class)
| ESchedule (o : nat) (handler : pyobj) (path : pyval) (recursive : bool)
| EStart (o : nat)
| EUnscheduleAll (o : nat)
| EStop (o : nat)
| EJoin (o : nat)
| ESleep
| EPopen (pid : nat) (command : list string)
| EKillpg (pid : nat) (signum : Z)
| EWait (pid : nat) (ticks : nat)
| EExit (pid : nat).

Record world : Type := World {
  sys_path : list string;
  signal_table : gmap Z disposition;
  next_observer : nat;
  process : option nat;
  next_pid : nat;
  trace : list event
}.

Definition set_sys_path (p : list string) (w : world) : world :=
  World p (signal_table w) (next_observer w) (process w) (next_pid w) (trace w).
Definition set_signal_table (t : gmap Z disposition) (w : world) : world :=
  World (sys_path w) t (next_observer w) (process w) (next_pid w) (trace w).
Definition set_next_observer (n : nat) (w : world) : world :=
  World (sys_path w) (signal_table w) n (process w) (next_pid w) (trace w).
Definition set_process (p : option nat) (w : world) : world :=
  World (sys_path w) (signal_table w) (next_observer w) p (next_pid w) (trace w).
Definition set_next_pid (n : nat) (w : world) : world :=
  World (sys_path w) (signal_table w) (next_observer w) (process w) n (trace w).
Definition set_trace (l : list event) (w : world) : world :=
  World (sys_path w) (signal_table w) (next_observer w) (process w) (next_pid w) l.
Definition add_trace (e : event) (w : world) : world :=
  set_trace (trace w ++ [e]) w.

(** A computation returns a value, raises, or halts; in every case the
    effects it had on the world stay. *)
Definition M (A : Type) : Type := world → result A * world.

Definition ret {A : Type} (a : A) : M A := λ w, (Ok a, w).
Definition raise {A : Type} (e : exn) : M A := λ w, (Raise e, w).
Definition halted {A : Type} (h : halt) : M A := λ w, (Halt h, w).
Definition bind {A B : Type} (c : M A) (k : A → M B) : M B :=
  λ w, match c w with
       | (Ok a, w') => k a w'
       | (Raise e, w') => (Raise e, w')
       | (Halt h, w') => (Halt h, w')
       end.
Definition get : M world := λ w, (Ok w, w).
Definition modify (f : world → world) : M unit := λ w, (Ok tt, f w).
Definition lift {A : Type} (r : result A) : M A := λ w, (r, w).
Definition emit (e : event) : M unit := modify (add_trace e).

Notation "x <- c ;; k" := (bind c (λ x, k))
  (at level 100, c at next level, right associativity).
Notation "c ;; k" := (bind c (λ _, k))
  (at level 100, right associativity).

(** [for x in xs: body] *)
Fixpoint for_each {A : Type} (xs : list A) (body : A → M unit) : M unit :=
  match xs with
  | [] => ret tt
  | x :: xs' => body x ;; for_each xs' body
  end.

(** [try: body / except WatchdogShutdown: handler] *)
Definition try_except_shutdown (body handler : M unit) : M unit :=
  λ w, match body w with
       | (Raise WatchdogShutdown, w') => handler w'
       | r => r
       end.

(** [try: body / finally: final] *)
Definition try_finally (body final : M unit) : M unit :=
  λ w, match body w with
       | (Ok _, w') => final w'
       | (Raise e, w') => (final ;; raise e) w'
       | (Halt h, w') => (Halt h, w')
       end.

(** ** [path_split] and [add_to_sys_path] *)

(** [list(pathname_spec.split(separator))]; the separator is [os.pathsep],
    one character on every platform. *)
Definition path_split (pathname_spec : string) (separator : ascii) : list string :=
  str_split separator pathname_spec.

(** [sys.path.insert(index, pathname)] *)
Definition sys_path_insert (index : Z) (pathname : string) : M unit :=
  modify (λ w, add_trace (ESysPathInsert index pathname)
                 (set_sys_path (py_insert index pathname (sys_path w)) w)).

Definition add_to_sys_path (pathnames : list string) (index : Z) : M unit :=
  for_each (reverse pathnames) (sys_path_insert index).

(** [parse_patterns], with its default separator. *)
Definition parse_patterns (patterns_spec ignore_patterns_spec : string)
    : list string * list string :=
  let patterns := str_split ";" patterns_spec in
  let ignore_patterns := str_split ";" ignore_patterns_spec in
  let ignore_patterns :=
    if bool_decide (ignore_patterns = [""%string]) then [] else ignore_patterns in
  (patterns, ignore_patterns).

(** ** Signals *)

Definition termination_signals : gset Z := {[ SIGTERM; SIGINT ]}.

(** [signal.signal(signum, d)] *)
Definition signal_signal (signum : Z) (d : disposition) : M unit :=
  modify (λ w, set_signal_table (<[signum := d]> (signal_table w)) w).

Definition handler_termination_signal : M unit :=
  for_each (elements termination_signals) (λ signum, signal_signal signum SIG_IGN) ;;
  raise WatchdogShutdown.

(** The loop of [auto_restart] that installs the handler. *)
Definition install_termination_handler : M unit :=
  for_each (elements termination_signals)
    (λ signum, signal_signal signum Handler_termination_signal).

(** Delivery of one signal to the main thread.  A signal left at its default
    action ends the process. *)
Definition deliver (signum : Z) : M unit :=
  w <- get ;;
  match signal_table w !! signum with
  | Some Handler_termination_signal => handler_termination_signal
  | Some SIG_IGN => ret tt
  | Some Default_int_handler => raise KeyboardInterrupt
  | Some SIG_DFL | None => halted (Killed signum)
  end.

(** What reaches the process while the main thread sleeps: a signal, or a
    file-system event that passes the filter of the scheduled handler. *)
Inductive arrival : Type :=
| Signal (signum : Z)
| FsEvent.

(** A trick entry of the configuration: a mapping from handler identifier to
    parameter mapping, in the order [items()] yields it. *)
Definition trick : Type := list (string * pyval).

(** A parsed configuration file: the value under each of the two keys, when
    the key is there. *)
Record config : Type := Config {
  cfg_tricks : option (list trick);
  cfg_python_path : option (list string)
}.

(** How the child process launched under a given pid behaves: whether
    launching it fails, whether it has exited by itself by the time it is
    signalled, and after how many seconds it exits once it has received the
    stop signal, if it ever does. *)
Record child_profile : Type := ChildProfile {
  launch_error : option exn;
  gone_before_stop : bool;
  exit_delay : option nat
}.

(** What [args.kill_after] holds.  The option [--kill-after] is declared
    with a default, the number 10.0, and without a type: given on the command
    line it reaches the code as the text that was typed.  Seconds are counted
    whole. *)
Inductive kill_after_value : Type :=
| Seconds (limit : nat)
| Text (typed : string).

(** The attributes [auto_restart] gives to its handler. *)
Record AutoRestartTrick : Type := Build_AutoRestartTrick {
  command : list string;
  patterns : list string;
  ignore_patterns : list string;
  ignore_directories : bool;
  stop_signal : Z;
  kill_after : kill_after_value
}.

(** The options of the [auto-restart] command. *)
Record auto_restart_args : Type := AutoRestartArgs {
  ar_command : string;
  ar_command_args : list string;
  ar_directories : list string;
  ar_patterns : string;
  ar_ignore_patterns : string;
  ar_ignore_directories : bool;
  ar_recursive : bool;
  ar_signal : string;
  ar_debug_force_polling : bool;
  ar_kill_after : kill_after_value
}.

Section Watchmedo.

(** [watchdog.utils.load_class]: imports along the current [sys.path] and
    returns the class named by the dotted path, or raises. *)
Variable load_class : list string → string → result pyclass.

(** The outcome of each call on an observer: [None] when it returns. *)
Variable observer_raises : event → option exn.

(** The configuration files: absent from the map when [os.path.exists]
    is false, otherwise what [load_config] returns or raises. *)
Variable filesystem : gmap string (result config).

Variable os_pathsep : ascii.
Variable os_path_dirname : string → string.

(** What arrives during each successive one-second sleep of the poll
    loop. *)
Variable arrivals : list (list arrival).

(** The order in which [for pathname in set(pathnames)] yields the distinct
    pathnames.  It follows the hashes of the strings, which the interpreter
    draws anew at each start: nothing is known of it here but what
    [orders_sets] says. *)
Variable set_order : list string → list string.

(** [getattr(signal, name)] and [int(s)], [None] where they raise. *)
Variable signal_by_name : string → option Z.
Variable py_int : string → option Z.

Variable child : nat → child_profile.

Definition observer_call (e : event) : M unit :=
  emit e ;;
  match observer_raises e with
  | Some x => raise x
  | None => ret tt
  end.

(** [cls(timeout=...)]: the timeout goes to the backend untouched. *)
Definition new_observer (cls : observer_class) : M nat :=
  w <- get ;;
  let o := next_observer w in
  modify (set_next_observer (S o)) ;;
  observer_call (ENewObserver o cls) ;;
  ret o.

(** [time.sleep(1)]: the arrivals of this sleep are handled in order, one
    at a time.  A signal runs its handler to the end before anything else
    happens; an event is dispatched to the handler by [on_event], and an
    exception of the handler ends the sleep like one of a signal handler. *)
Definition sleep (on_event : M unit) (arrived : list arrival) : M unit :=
  emit ESleep ;;
  for_each arrived (λ a,
    match a with
    | Signal signum => deliver signum
    | FsEvent => on_event
    end).

(** [while True: time.sleep(1)] *)
Fixpoint poll_loop (on_event : M unit) (pending : list (list arrival)) : M unit :=
  match pending with
  | [] => halted Blocked
  | arrived :: pending' => sleep on_event arrived ;; poll_loop on_event pending'
  end.

(** [getattr(handler, 'source_directory', None) or pathname] *)
Definition trick_pathname (handler : pyobj) (pathname : string) : pyval :=
  py_or (getattr handler "source_directory" PyNone) (PyStr pathname).

(** The body of the inner loop of [schedule_tricks]. *)
Definition schedule_trick (observer : nat) (pathname : string) (recursive : bool)
    (item : string * pyval) : M unit :=
  let '(name, value) := item in
  w <- get ;;
  TrickClass <- lift (load_class (sys_path w) name) ;;
  handler <- lift (TrickClass value) ;;
  observer_call (ESchedule observer handler (trick_pathname handler pathname) recursive).

Definition schedule_tricks (observer : nat) (tricks : list trick)
    (pathname : string) (recursive : bool) : M unit :=
  for_each tricks (λ trick,
    for_each trick (schedule_trick observer pathname recursive)).

(** The options of the [tricks] command that reach the code. *)
Record tricks_args : Type := TricksArgs {
  files : list string;
  python_path : string;
  recursive : bool;
  debug_force_polling : bool;
  debug_force_kqueue : bool;
  debug_force_winapi : bool;
  debug_force_winapi_async : bool;
  debug_force_fsevents : bool;
  debug_force_inotify : bool
}.

(** The chain of imports at the head of [tricks_from]. *)
Definition select_observer (args : tricks_args) : observer_class :=
  if debug_force_polling args then PollingObserver
  else if debug_force_kqueue args then KqueueObserver
  else if debug_force_winapi_async args then WindowsApiAsyncObserver
  else if debug_force_winapi args then WindowsApiObserver
  else if debug_force_inotify args then InotifyObserver
  else if debug_force_fsevents args then FSEventsObserver
  else Observer.

(** The body of the loop over the configuration files, up to the observer
    it appends to [observers]. *)
Definition start_observer (cls : observer_class) (recursive : bool)
    (tricks_file : string) : M nat :=
  observer <- new_observer cls ;;
  match filesystem !! tricks_file with
  | None => raise (OSError ENOENT tricks_file)
  | Some loaded =>
      config <- lift loaded ;;
      tricks <- match cfg_tricks config with
                | Some tricks => ret tricks
                | None => raise (KeyError CONFIG_KEY_TRICKS tricks_file)
                end ;;
      match cfg_python_path config with
      | Some pathnames => add_to_sys_path pathnames 0
      | None => ret tt
      end ;;
      let dir_path := os_path_dirname tricks_file in
      let dir_path := if String.eqb dir_path "" then "."%string else dir_path in
      schedule_tricks observer tricks dir_path recursive ;;
      observer_call (EStart observer) ;;
      ret observer
  end.

(** [for tricks_file in args.files: ...; observers.append(observer)] *)
Fixpoint start_observers (cls : observer_class) (recursive : bool)
    (tricks_files : list string) (observers : list nat) : M (list nat) :=
  match tricks_files with
  | [] => ret observers
  | tricks_file :: tricks_files' =>
      observer <- start_observer cls recursive tricks_file ;;
      start_observers cls recursive tricks_files' (observers ++ [observer])
  end.

(** The [except WatchdogShutdown] block of [tricks_from]. *)
Definition stop_observers (observers : list nat) : M unit :=
  for_each observers (λ o,
    observer_call (EUnscheduleAll o) ;;
    observer_call (EStop o)).

(** The last loop of [tricks_from]. *)
Definition join_observers (observers : list nat) : M unit :=
  for_each observers (λ o, observer_call (EJoin o)).

(** The end of [tricks_from], from its [try] on.  What the tricks do with
    an event is their own business. *)
Definition run_observers (observers : list nat) : M unit :=
  try_except_shutdown (poll_loop (ret tt) arrivals) (stop_observers observers) ;;
  join_observers observers.

Definition tricks_from (args : tricks_args) : M unit :=
  let Observer := select_observer args in
  add_to_sys_path (path_split (python_path args) os_pathsep) 0 ;;
  observers <- start_observers Observer (recursive args) (files args) [] ;;
  run_observers observers.

(** [observe_with].  The handler is given twice: as the object that is
    scheduled, and as what it does with an event. *)
Definition observe_with (observer : nat) (event_handler : pyobj) (on_event : M unit)
    (pathnames : list string) (recursive : bool) : M unit :=
  for_each (set_order pathnames) (λ pathname,
    observer_call (ESchedule observer event_handler (PyStr pathname) recursive)) ;;
  observer_call (EStart observer) ;;
  try_except_shutdown (poll_loop on_event arrivals) (observer_call (EStop observer)) ;;
  observer_call (EJoin observer).

(** Modelled from the spec: [AutoRestartTrick.start] of [watchdog.tricks],
    which is not among the sources.  The spec: "launches the child if
    absent; no-op if already running"; "inability to launch the child
    (missing executable, permission) is fatal to the session". *)
Definition trick_start (t : AutoRestartTrick) : M unit :=
  w <- get ;;
  match process w with
  | Some _ => ret tt
  | None =>
      let pid := next_pid w in
      modify (set_next_pid (S pid)) ;;
      match launch_error (child pid) with
      | Some e => raise e
      | None => emit (EPopen pid (command t)) ;; modify (set_process (Some pid))
      end
  end.

(** Modelled from the spec: [AutoRestartTrick.stop] of [watchdog.tricks],
    which is not among the sources.  The spec: "sends the configured stop
    signal to the current child, waits up to [kill_after] seconds for
    voluntary exit, force-kills if still alive"; "idempotent if nothing is
    running"; "failure to deliver a stop/kill signal because the process
    has already exited is treated as already-stopped, not an error".
    A wait of up to [kill_after] seconds needs a number: with a text the
    deadline cannot be computed, which in Python is a [TypeError], raised
    once the stop signal has been delivered. *)
Definition trick_stop (t : AutoRestartTrick) : M unit :=
  w <- get ;;
  match process w with
  | None => ret tt
  | Some pid =>
      emit (EKillpg pid (stop_signal t)) ;;
      (if gone_before_stop (child pid) then ret tt
       else
         match kill_after t with
         | Text _ => raise (Exception "TypeError")
         | Seconds limit =>
             match exit_delay (child pid) with
             | Some delay =>
                 if (delay <=? limit)%nat then emit (EWait pid delay)
                 else emit (EWait pid limit) ;; emit (EKillpg pid SIGKILL)
             | None => emit (EWait pid limit) ;; emit (EKillpg pid SIGKILL)
             end
         end) ;;
      emit (EExit pid) ;;
      modify (set_process None)
  end.

(** Modelled from the spec: the reaction of [AutoRestartTrick] to an event
    that passes its filter, in [watchdog.tricks], which is not among the
    sources.  The spec: the stop sequence, "and only then launches the
    replacement with the identical command line". *)
Definition trick_restart (t : AutoRestartTrick) : M unit :=
  trick_stop t ;;
  trick_start t.

(** The instance as the observer sees it. *)
Definition trick_object (t : AutoRestartTrick) : pyobj :=
  PyObj "AutoRestartTrick"
    {[ "command"%string := PyList (PyStr <$> command t);
       "patterns"%string := PyList (PyStr <$> patterns t);
       "ignore_patterns"%string := PyList (PyStr <$> ignore_patterns t);
       "ignore_directories"%string := PyBool (ignore_directories t);
       "stop_signal"%string := PyInt (stop_signal t);
       "kill_after"%string := match kill_after t with
                              | Seconds limit => PyInt (Z.of_nat limit)
                              | Text typed => PyStr typed
                              end ]}.

(** [Allow either signal name or number.] *)
Definition parse_stop_signal (name : string) : M Z :=
  if String.prefix "SIG" name then
    match signal_by_name name with
    | Some signum => ret signum
    | None => raise (Exception "AttributeError")
    end
  else
    match py_int name with
    | Some signum => ret signum
    | None => raise (Exception "ValueError")
    end.

Definition auto_restart (args : auto_restart_args) : M unit :=
  let Observer := if ar_debug_force_polling args then PollingObserver else Observer in
  let directories :=
    if bool_decide (ar_directories args = []) then ["."%string] else ar_directories args in
  stop_signal <- parse_stop_signal (ar_signal args) ;;
  install_termination_handler ;;
  let '(patterns, ignore_patterns) :=
    parse_patterns (ar_patterns args) (ar_ignore_patterns args) in
  let command := [ar_command args] ++ ar_command_args args in
  let handler :=
    Build_AutoRestartTrick command patterns ignore_patterns
      (ar_ignore_directories args) stop_signal (ar_kill_after args) in
  trick_start handler ;;
  observer <- new_observer Observer ;;
  try_finally
    (try_except_shutdown
       (observe_with observer (trick_object handler) (trick_restart handler)
          directories (ar_recursive args))
       (ret tt))
    (trick_stop handler).

End Watchmedo.

(** ** Vocabulary of the statements *)

(** What the two lines [TrickClass = load_class(name)] and
    [handler = TrickClass( **value )] give for one key-value pair. *)
Definition build_handler (load_class : list string → string → result pyclass)
    (path : list string) (item : string * pyval) : result pyobj :=
  match load_class path item.1 with
  | Ok TrickClass => TrickClass item.2
  | Raise e => Raise e
  | Halt h => Halt h
  end.

(** The registration [schedule_tricks] makes for a constructed handler. *)
Definition watch_event (o : nat) (pathname : string) (recursive : bool)
    (handler : pyobj) : event :=
  ESchedule o handler
    (match ob_dict handler !! "source_directory"%string with
     | Some v => if truthy v then v else PyStr pathname
     | None => PyStr pathname
     end)
    recursive.

(** The calls to [schedule] made on observer [o], in order. *)
Definition scheduled (o : nat) (l : list event) : list (pyobj * pyval * bool) :=
  omap (λ e, match e with
             | ESchedule o' h p r => if bool_decide (o' = o) then Some (h, p, r) else None
             | _ => None
             end) l.

(** No call to [schedule] on observer [o] raises. *)
Definition schedule_returns (observer_raises : event → option exn) (o : nat) : Prop :=
  ∀ h p r, observer_raises (ESchedule o h p r) = None.

(** The number of times [WatchdogShutdown] is raised while the given
    signals are delivered one after the other, the code that is interrupted
    catching each exception.  A signal that kills the process ends the
    count. *)
Fixpoint cancellations (signums : list Z) (w : world) : nat :=
  match signums with
  | [] => 0
  | signum :: signums' =>
      match deliver signum w with
      | (Ok _, w') => cancellations signums' w'
      | (Raise WatchdogShutdown, w') => S (cancellations signums' w')
      | (Raise _, w') => cancellations signums' w'
      | (Halt _, _) => 0
      end
  end.

(** The observers on which [start] was called, in order. *)
Definition started (l : list event) : list nat :=
  omap (λ e, match e with EStart o => Some o | _ => None end) l.

(** The observers on which [stop], and on which [join], was called. *)
Definition stopped (l : list event) : list nat :=
  omap (λ e, match e with EStop o => Some o | _ => None end) l.
Definition joined (l : list event) : list nat :=
  omap (λ e, match e with EJoin o => Some o | _ => None end) l.

(** The calls the teardown of [tricks_from] makes when none of them raises. *)
Definition teardown_calls (observers : list nat) : list event :=
  (observers ≫= λ o, [EUnscheduleAll o; EStop o]) ++ (EJoin <$> observers).

Definition is_start (e : event) : bool :=
  match e with EStart _ => true | _ => false end.



Definition is_child_event (e : event) : bool :=
  match e with EPopen _ _ | EExit _ => true | _ => false end.

(** The children alive after an event, from those alive before it. *)
Definition step_running (alive : list nat) (e : event) : list nat :=
  match e with
  | EPopen pid _ => alive ++ [pid]
  | EExit pid => filter (λ p, p ≠ pid) alive
  | _ => alive
  end.

Definition running_after (l : list event) : list nat := foldl step_running [] l.

(** After no event of the trace are two children alive. *)
Fixpoint never_two (alive : list nat) (l : list event) : bool :=
  match l with
  | [] => true
  | e :: l' =>
      (length (step_running alive e) <=? 1)%nat && never_two (step_running alive e) l'
  end.

(** The trace never shows two children alive, and the child alive at its end
    is the one the handler holds. *)
Definition supervised (w : world) : Prop :=
  never_two [] (trace w) = true
  ∧ running_after (trace w) = match process w with Some pid => [pid] | None => [] end.

(** Every launch is of the given command line. *)
Definition launches (cmd : list string) (e : event) : Prop :=
  match e with
  | EPopen _ c => c = cmd
  | _ => True
  end.

(** Whether [trick_stop] gets to the end of the sequence for the child
    [pid]: it does unless it has to wait and [kill_after] is no number. *)
Definition stop_completes (child : nat → child_profile) (t : AutoRestartTrick)
    (pid : nat) : bool :=
  gone_before_stop (child pid)
  || match kill_after t with Seconds _ => true | Text _ => false end.

(** What [trick_stop] does to the child [pid] when it gets to the end. *)
Definition stop_sequence (child : nat → child_profile) (t : AutoRestartTrick)
    (pid : nat) : list event :=
  EKillpg pid (stop_signal t)
  :: (if gone_before_stop (child pid) then []
      else match kill_after t with
           | Text _ => []
           | Seconds limit =>
               match exit_delay (child pid) with
               | Some delay =>
                   if (delay <=? limit)%nat then [EWait pid delay]
                   else [EWait pid limit; EKillpg pid SIGKILL]
               | None => [EWait pid limit; EKillpg pid SIGKILL]
               end
           end)
  ++ [EExit pid].

Definition is_supervisor_event (e : event) : bool :=
  match e with
  | EPopen _ _ | EKillpg _ _ | EWait _ _ | EExit _ => true
  | _ => false
  end.

(** Where the supervision of the child stands. *)
Inductive child_phase : Type :=
| NoChild
| Running (pid : nat)
| Signalled (pid : nat)
| Waited (pid : nat) (seconds : nat)
| ForceKilled (pid : nat).

Definition phase_of (process : option nat) : child_phase :=
  match process with
  | Some pid => Running pid
  | None => NoChild
  end.

(** The order the supervision has to follow: a child is launched only when
    there is none; a running child is first sent the stop signal; then it
    is found gone, or waited for during at most [kill_after] seconds; after
    the wait it has exited, or the wait was the whole of [kill_after] and it
    is sent SIGKILL.  [None] when the event comes out of turn. *)
Definition phase_step (stop_signal : Z) (kill_after : nat) (ph : child_phase)
    (e : event) : option child_phase :=
  match e with
  | EPopen pid _ =>
      match ph with
      | NoChild => Some (Running pid)
      | _ => None
      end
  | EKillpg pid signum =>
      match ph with
      | Running p =>
          if bool_decide (pid = p ∧ signum = stop_signal) then Some (Signalled p) else None
      | Waited p seconds =>
          if bool_decide (pid = p ∧ signum = SIGKILL ∧ seconds = kill_after)
          then Some (ForceKilled p) else None
      | _ => None
      end
  | EWait pid seconds =>
      match ph with
      | Signalled p =>
          if bool_decide (pid = p ∧ (seconds ≤ kill_after)%nat)
          then Some (Waited p seconds) else None
      | _ => None
      end
  | EExit pid =>
      match ph with
      | Signalled p | Waited p _ | ForceKilled p =>
          if bool_decide (pid = p) then Some NoChild else None
      | _ => None
      end
  | _ => Some ph
  end.

Fixpoint phase_after (stop_signal : Z) (kill_after : nat) (ph : child_phase)
    (l : list event) : option child_phase :=
  match l with
  | [] => Some ph
  | e :: l' =>
      match phase_step stop_signal kill_after ph e with
      | Some ph' => phase_after stop_signal kill_after ph' l'
      | None => None
      end
  end.

(** Since the world [w0], the trace has followed that order, and has
    brought the supervision to where the handler stands in [w]. *)
Definition conforms (stop_signal : Z) (kill_after : nat) (w0 w : world) : Prop :=
  ∃ added, trace w = trace w0 ++ added
           ∧ phase_after stop_signal kill_after (phase_of (process w0)) added
             = Some (phase_of (process w)).

(** A computation takes worlds in [P] to worlds in [Q], however it ends. *)
Definition hoare {A : Type} (P : world → Prop) (c : M A) (Q : world → Prop) : Prop :=
  ∀ w, P w → Q (c w).2.

(** The part of the trace a computation adds has property [P], whatever the
    world it starts from and however it ends. *)
Definition emits {A : Type} (P : list event → Prop) (c : M A) : Prop :=
  ∀ w, ∃ added, trace (c w).2 = trace w ++ added ∧ P added.


(** [sep.join(fields)] for a separator of one character. *)
Fixpoint str_join (sep : ascii) (fields : list string) : string :=
  match fields with
  | [] => EmptyString
  | field :: fields' =>
      match fields' with
      | [] => field
      | _ => String.append field (String sep (str_join sep fields'))
      end
  end.

(** [s.count(sep)] for a separator of one character. *)
Fixpoint str_count (sep : ascii) (s : string) : nat :=
  match s with
  | EmptyString => 0
  | String c s' => (if Ascii.eqb c sep then 1 else 0) + str_count sep s'
  end.

Definition is_observer_event (e : event) : bool :=
  match e with
  | ENewObserver _ _ | ESchedule _ _ _ _ | EStart _
  | EUnscheduleAll _ | EStop _ | EJoin _ => true
  | _ => false
  end.

(** A handler whose reaction to an event always returns, makes no call on
    an observer and installs no signal handler. *)
Definition steady (on_event : M unit) : Prop :=
  ∀ w, ∃ w' added,
    on_event w = (Ok tt, w')
    ∧ signal_table w' = signal_table w
    ∧ trace w' = trace w ++ added
    ∧ Forall (λ e, is_observer_event e = false) added.

(** What iterating over [set(pathnames)] is known to do: it yields each
    distinct pathname once, in some order. *)
Definition orders_sets (set_order : list string → list string) : Prop :=
  ∀ pathnames,
    NoDup (set_order pathnames) ∧ ∀ p, p ∈ set_order pathnames ↔ p ∈ pathnames.

(** The extra search roots a configuration file gives. *)
Definition roots_of (filesystem : gmap string (result config)) (tricks_file : string)
    : list string :=
  match filesystem !! tricks_file with
  | Some (Ok cfg) => default [] (cfg_python_path cfg)
  | _ => []
  end.




(** The directories [auto_restart] watches: the current one when none is
    given. *)
Definition restart_directories (args : auto_restart_args) : list string :=
  if bool_decide (ar_directories args = []) then ["."%string] else ar_directories args.

(** The handler [auto_restart] builds once the stop signal is known. *)
Definition restart_handler (args : auto_restart_args) (signum : Z) : AutoRestartTrick :=
  Build_AutoRestartTrick ([ar_command args] ++ ar_command_args args)
    (parse_patterns (ar_patterns args) (ar_ignore_patterns args)).1
    (parse_patterns (ar_patterns args) (ar_ignore_patterns args)).2
    (ar_ignore_directories args) signum (ar_kill_after args).

Definition restart_observer (args : auto_restart_args) : observer_class :=
  if ar_debug_force_polling args then PollingObserver else Observer.

(** The stages of the life of an observer. *)
Inductive stage : Type :=
| Created
| Started
| Stopped
| Joined.

(** The protocol of the observers as a monitor of the trace: an observer is
    created once; handlers are scheduled on it and it is started only while
    it has not been started; [unschedule_all] and [stop] are called on it
    only while it is started and not stopped; [join] is called on it only
    once [stop] has been, and once.  The monitor keeps the stage of every
    observer it has seen and gives [None] at the first call out of place. *)
Definition lifecycle_step (m : gmap nat stage) (e : event) : option (gmap nat stage) :=
  match e with
  | ENewObserver o _ =>
      match m !! o with None => Some (<[o := Created]> m) | Some _ => None end
  | ESchedule o _ _ _ =>
      match m !! o with Some Created => Some m | _ => None end
  | EStart o =>
      match m !! o with Some Created => Some (<[o := Started]> m) | _ => None end
  | EUnscheduleAll o =>
      match m !! o with Some Started => Some m | _ => None end
  | EStop o =>
      match m !! o with Some Started => Some (<[o := Stopped]> m) | _ => None end
  | EJoin o =>
      match m !! o with Some Stopped => Some (<[o := Joined]> m) | _ => None end
  | _ => Some m
  end.

Fixpoint lifecycle (m : gmap nat stage) (l : list event) : option (gmap nat stage) :=
  match l with
  | [] => Some m
  | e :: l' =>
      match lifecycle_step m e with
      | Some m' => lifecycle m' l'
      | None => None
      end
  end.

(** From stages and a world in [P], the calls a computation makes keep to
    the protocol however it ends, and when it returns the stages and the
    world it leaves are in [Q]. *)
Definition follows {A : Type} (P : gmap nat stage → world → Prop) (c : M A)
    (Q : A → gmap nat stage → world → Prop) : Prop :=
  ∀ m w, P m w →
    ∃ added m',
      trace (c w).2 = trace w ++ added
      ∧ lifecycle m added = Some m'
      ∧ ∀ a, (c w).1 = Ok a → Q a m' (c w).2.

(** The same for a computation that leaves every observer at its stage,
    however it ends. *)
Definition idles {A : Type} (P : gmap nat stage → world → Prop) (c : M A) : Prop :=
  ∀ m w, P m w →
    ∃ added,
      trace (c w).2 = trace w ++ added
      ∧ lifecycle m added = Some m
      ∧ P m (c w).2.

(** The stages while a loop goes over a list of observers: those it is done
    with, those still to come, and no others. *)
Definition stage_of (done : list nat) (d : stage) (rest : list nat) (r : stage)
    (o : nat) : option stage :=
  if bool_decide (o ∈ done) then Some d
  else if bool_decide (o ∈ rest) then Some r
  else None.

Definition staged (done : list nat) (d : stage) (rest : list nat) (r : stage)
    (m : gmap nat stage) : Prop :=
  NoDup (done ++ rest) ∧ ∀ o, m !! o = stage_of done d rest r o.

(** ** A concrete environment

    Used to run the definitions on explicit inputs. *)

Module Example.

(** A class that keeps its keyword arguments as the attributes of the
    instance, and rejects anything but a mapping. *)
Definition kwargs_class (name : string) : pyclass :=
  λ value, match value with
           | PyDict items => Ok (PyObj name (list_to_map items))
           | _ => Raise (Exception "TypeError")
           end.

(** Every dotted path resolves, except those in the package [nowhere]. *)
Definition load_class (path : list string) (name : string) : result pyclass :=
  if String.prefix "nowhere." name then Raise (Exception "ImportError")
  else Ok (kwargs_class name).

Definition never_raises (e : event) : option exn := None.

(** Every call to [stop] on observer 0 raises. *)
Definition stop_0_raises (e : event) : option exn :=
  match e with
  | EStop 0 => Some (Exception "RuntimeError")
  | _ => None
  end.

Definition w0 : world := World ["/usr/lib/python"%string] ∅ 0 None 0 [].

Definition logger : string * pyval := ("tricks.Logger"%string, PyDict []).
Definition mover : string * pyval :=
  ("tricks.Mover"%string, PyDict [("source_directory"%string, PyStr "/srv/in")]).
Definition blank : string * pyval :=
  ("tricks.Blank"%string, PyDict [("source_directory"%string, PyStr "")]).
Definition missing : string * pyval := ("nowhere.Missing"%string, PyDict []).

(** The instances the classes above return for [logger] and [mover]. *)
Definition logger_handler : pyobj := PyObj "tricks.Logger" ∅.
Definition mover_handler : pyobj :=
  PyObj "tricks.Mover" (list_to_map [("source_directory"%string, PyStr "/srv/in")]).

(** Two configuration files in the current directory: the second one adds
    a search root and names a trick that does not resolve. *)
Definition good_config : config := Config (Some [[logger]]) None.
Definition rooted_config : config := Config (Some [[mover]]) (Some ["/opt/tricks"%string]).
Definition bad_config : config := Config (Some [[missing]]) (Some ["/opt/tricks"%string]).

Definition filesystem : gmap string (result config) :=
  {[ "good.yaml"%string := Ok good_config;
     "rooted.yaml"%string := Ok rooted_config;
     "bad.yaml"%string := Ok bad_config ]}.

(** [os.path.dirname] of a bare file name. *)
Definition dirname (pathname : string) : string := ""%string.

Definition args (files : list string) : tricks_args :=
  TricksArgs files "." true false false false false false false.

(** A world in which the termination handler is installed for SIGTERM, as
    the caller of [tricks_from] has to leave it for [WatchdogShutdown] to be
    raised in its loop: [tricks_from] installs no handler of its own. *)
Definition w_armed : world :=
  World ["/usr/lib/python"%string] {[ SIGTERM := Handler_termination_signal ]} 0 None 0 [].

(** The same world once the handler has run. *)
Definition w_neutered : world :=
  World ["/usr/lib/python"%string] {[ SIGTERM := SIG_IGN; SIGINT := SIG_IGN ]} 0 None 0 [ESleep].

(** One termination signal during the first sleep. *)
Definition one_sigterm : list (list arrival) := [[Signal SIGTERM]].

(** The first child exits two seconds after the stop signal, the others
    ignore it; every launch succeeds. *)
Definition child (pid : nat) : child_profile :=
  ChildProfile None false (if bool_decide (pid = 0%nat) then Some 2%nat else None).

Definition signal_by_name (name : string) : option Z :=
  if String.eqb name "SIGINT" then Some SIGINT
  else if String.eqb name "SIGTERM" then Some SIGTERM
  else None.

(** No option value is read as a number. *)
Definition py_int (s : string) : option Z := None.

(** Two events during the first sleep, an interrupt during the second. *)
Definition two_events_then_sigint : list (list arrival) :=
  [[FsEvent; FsEvent]; [Signal SIGINT]].

(** The options as a caller that passes a number for [kill_after] gives
    them. *)
Definition server_args : auto_restart_args :=
  AutoRestartArgs "server" ["--port"%string; "8000"%string] [] "*.py" "" false true
    "SIGTERM" false (Seconds 5).


(** One event during the first sleep, a termination signal during the
    second. *)
Definition event_then_sigterm : list (list arrival) := [[FsEvent]; [Signal SIGTERM]].


(** An order of iteration over a set that is not the order of the list
    nor a sorted one. *)
Definition set_order (pathnames : list string) : list string :=
  reverse (elements (list_to_set pathnames : gset string)).

(** The observer refuses to watch for the handlers of class
    [tricks.Mover]. *)
Definition refuses_mover (e : event) : option exn :=
  match e with
  | ESchedule _ h _ _ =>
      if String.eqb (ob_type h) "tricks.Mover" then Some (Exception "OSError") else None
  | _ => None
  end.

(** A world as the interpreter starts it: its own handler for SIGINT. *)
Definition w_default : world :=
  World ["/usr/lib/python"%string] {[ SIGINT := Default_int_handler ]} 0 None 0 [].

(** An event, then an interrupt, during the second sleep. *)
Definition event_then_sigint : list (list arrival) :=
  [[]; [FsEvent; Signal SIGINT; FsEvent]; [FsEvent]].

(** A world in which the termination handler is installed for both
    termination signals. *)
Definition w_installed : world :=
  World ["/usr/lib/python"%string]
    {[ SIGTERM := Handler_termination_signal; SIGINT := Handler_termination_signal ]}
    0 None 0 [].

(** A configuration without the key [tricks], and one more with an extra
    search root. *)
Definition keyless_config : config := Config None (Some ["/opt/tricks"%string]).
Definition second_config : config := Config (Some [[logger]]) (Some ["/srv/tricks"%string]).

Definition filesystem2 : gmap string (result config) :=
  {[ "good.yaml"%string := Ok good_config;
     "rooted.yaml"%string := Ok rooted_config;
     "second.yaml"%string := Ok second_config;
     "keyless.yaml"%string := Ok keyless_config ]}.

(** The observer cannot be created. *)
Definition no_observer (e : event) : option exn :=
  match e with
  | ENewObserver _ _ => Some (Exception "OSError")
  | _ => None
  end.

(** No child can be launched. *)
Definition no_child (pid : nat) : child_profile :=
  ChildProfile (Some (OSError ENOENT "server")) false None.

Definition bad_signal_args : auto_restart_args :=
  AutoRestartArgs "server" [] [] "*.py" "" false true "SIGFOO" false (Seconds 5).

End Example.

(** ** Theorems *)

Lemma py_insert_0 {A : Type} (x : A) (l : list A) : py_insert 0 x l = x :: l.
Proof.
  unfold py_insert. simpl.
  replace (Z.to_nat (Z.min 0 (Z.of_nat (length l)))) with 0%nat by lia.
  by rewrite take_0, drop_0.
Qed.

Lemma bind_unfold {A B : Type} (c : M A) (k : A → M B) (w : world) :
  bind c k w = match c w with
               | (Ok a, w') => k a w'
               | (Raise e, w') => (Raise e, w')
               | (Halt h, w') => (Halt h, w')
               end.
Proof. reflexivity. Qed.

Lemma for_each_app {A : Type} (xs ys : list A) (body : A → M unit) (w : world) :
  for_each (xs ++ ys) body w
  = match for_each xs body w with
    | (Ok _, w') => for_each ys body w'
    | (Raise e, w') => (Raise e, w')
    | (Halt h, w') => (Halt h, w')
    end.
Proof.
  revert w. induction xs as [|x xs IH]; intros w; simpl; [done|].
  unfold bind. destruct (body x w) as [[[]|e|h] w']; [apply IH|done..].
Qed.

Lemma py_insert_in_range {A : Type} (index : Z) (x : A) (l : list A) :
  0 ≤ index ≤ Z.of_nat (length l) →
  py_insert index x l = take (Z.to_nat index) l ++ x :: drop (Z.to_nat index) l.
Proof.
  intros Hi. unfold py_insert.
  destruct (Z.ltb_spec index 0); [lia|]. rewrite Z.min_l; [done|lia].
Qed.

(** At an index within the list, the roots go in between, in their order. *)
Lemma add_to_sys_path_at (pathnames : list string) (index : Z) (w : world) :
  0 ≤ index ≤ Z.of_nat (length (sys_path w)) →
  (add_to_sys_path pathnames index w).1 = Ok tt
  ∧ sys_path (add_to_sys_path pathnames index w).2
    = take (Z.to_nat index) (sys_path w) ++ pathnames
      ++ drop (Z.to_nat index) (sys_path w).
Proof.
  unfold add_to_sys_path. revert w.
  induction pathnames as [|p ps IH] using rev_ind; intros w Hi.
  { simpl. by rewrite take_drop. }
  rewrite reverse_snoc. cbn [for_each]. rewrite bind_unfold. cbn [sys_path_insert modify].
  match goal with |- context [for_each _ _ ?w1] => destruct (IH w1) as [IH1 IH2] end.
  { simpl. rewrite py_insert_in_range by done.
    rewrite length_app, length_take. simpl. rewrite length_drop. lia. }
  destruct (for_each _ _ _) as [r w2]. simpl in *. subst r. split; [done|].
  rewrite IH2, py_insert_in_range by done.
  rewrite take_app_length', drop_app_length' by (rewrite length_take; lia).
  by rewrite <- !app_assoc.
Qed.

Lemma add_to_sys_path_0_spec (pathnames : list string) (w : world) :
  add_to_sys_path pathnames 0 w
  = (Ok tt, set_trace (trace w ++ (ESysPathInsert 0 <$> reverse pathnames))
              (set_sys_path (pathnames ++ sys_path w) w)).
Proof.
  unfold add_to_sys_path. revert w.
  induction pathnames as [|p ps IH] using rev_ind; intros w.
  - destruct w. simpl. by rewrite app_nil_r.
  - rewrite reverse_snoc. simpl. unfold bind at 1. simpl.
    rewrite IH. simpl. rewrite py_insert_0.
    by rewrite <- !app_assoc.
Qed.

Lemma for_each_concat {A : Type} (xss : list (list A)) (body : A → M unit) (w : world) :
  for_each xss (λ xs, for_each xs body) w = for_each (concat xss) body w.
Proof.
  revert w. induction xss as [|xs xss IH]; intros w; simpl; [done|].
  rewrite for_each_app. unfold bind.
  destruct (for_each xs body w) as [[[]|e|h] w']; [apply IH|done..].
Qed.

Section Scheduling.

Variable load_class : list string → string → result pyclass.
Variable observer_raises : event → option exn.

Abbreviation schedule_trick := (schedule_trick load_class observer_raises).
Abbreviation schedule_tricks := (schedule_tricks load_class observer_raises).

Lemma schedule_tricks_concat o (tricks : list trick) pathname r w :
  schedule_tricks o tricks pathname r w
  = for_each (concat tricks) (schedule_trick o pathname r) w.
Proof. unfold schedule_tricks. apply for_each_concat. Qed.

Lemma trick_pathname_spec (h : pyobj) (o : nat) (pathname : string) (r : bool) :
  ESchedule o h (trick_pathname h pathname) r = watch_event o pathname r h.
Proof.
  unfold watch_event, trick_pathname, py_or, getattr.
  destruct (ob_dict h !! _) as [v|]; [|done]. by destruct (truthy v).
Qed.

Lemma schedule_trick_ok o pathname r item h w :
  build_handler load_class (sys_path w) item = Ok h →
  schedule_returns observer_raises o →
  schedule_trick o pathname r item w = (Ok tt, add_trace (watch_event o pathname r h) w).
Proof.
  intros Hb Hs. destruct item as [name value]. unfold build_handler in Hb.
  unfold schedule_trick, bind, get, lift, observer_call, emit, modify, bind. simpl in *.
  destruct (load_class (sys_path w) name) as [C|e|x]; [|done..].
  rewrite Hb, Hs. by rewrite trick_pathname_spec.
Qed.

Lemma schedule_trick_raise o pathname r item e w :
  build_handler load_class (sys_path w) item = Raise e →
  schedule_trick o pathname r item w = (Raise e, w).
Proof.
  intros Hb. destruct item as [name value]. unfold build_handler in Hb.
  unfold schedule_trick, bind, get, lift. simpl in *.
  destruct (load_class (sys_path w) name) as [C|e'|x]; [|congruence..].
  by rewrite Hb.
Qed.

Lemma schedule_items_ok o pathname r items hs w :
  Forall2 (λ item h, build_handler load_class (sys_path w) item = Ok h) items hs →
  schedule_returns observer_raises o →
  for_each items (schedule_trick o pathname r) w
  = (Ok tt, set_trace (trace w ++ (watch_event o pathname r <$> hs)) w).
Proof.
  intros HF Hs. revert w HF.
  induction items as [|item items IH] in hs |- *; intros w HF.
  - apply Forall2_nil_inv_l in HF as ->. destruct w; simpl.
    by rewrite app_nil_r.
  - apply Forall2_cons_inv_l in HF as (h & hs' & Hb & HF & ->). simpl.
    unfold bind. rewrite (schedule_trick_ok _ _ _ _ h) by done.
    rewrite (IH hs') by done. simpl. by rewrite <- app_assoc.
Qed.

Lemma schedule_items_raise o pathname r pre bad post hs e w :
  Forall2 (λ item h, build_handler load_class (sys_path w) item = Ok h) pre hs →
  build_handler load_class (sys_path w) bad = Raise e →
  schedule_returns observer_raises o →
  for_each (pre ++ bad :: post) (schedule_trick o pathname r) w
  = (Raise e, set_trace (trace w ++ (watch_event o pathname r <$> hs)) w).
Proof.
  intros HF Hb Hs. rewrite for_each_app, (schedule_items_ok _ _ _ _ hs) by done.
  simpl. unfold bind. by rewrite (schedule_trick_raise _ _ _ _ e).
Qed.

Lemma scheduled_app o l1 l2 : scheduled o (l1 ++ l2) = scheduled o l1 ++ scheduled o l2.
Proof. apply omap_app. Qed.

Lemma scheduled_watch_events o pathname r hs :
  length (scheduled o (watch_event o pathname r <$> hs)) = length hs.
Proof.
  induction hs as [|h hs IH]; [done|].
  rewrite fmap_cons. change (watch_event o pathname r h :: ?l) with ([watch_event o pathname r h] ++ l).
  rewrite scheduled_app, length_app, IH. unfold scheduled, watch_event. simpl.
  by rewrite bool_decide_eq_true_2.
Qed.

(** C8. [add_to_sys_path], at its default index 0, puts the given search
    roots in front of everything [sys.path] held before and keeps their
    order: the first root of the list becomes the first entry of
    [sys.path]. *)
Theorem add_to_sys_path_prepends (pathnames : list string) (w : world) :
  (add_to_sys_path pathnames 0 w).1 = Ok tt
  ∧ sys_path (add_to_sys_path pathnames 0 w).2 = pathnames ++ sys_path w.
Proof. by rewrite add_to_sys_path_0_spec. Qed.

(** C10. The path at which [schedule_tricks] registers a constructed handler
    is decided by the truth value of its [source_directory] attribute: when
    the attribute is absent or holds a falsy value ([None] and the empty
    string among them) the handler is registered at the default pathname,
    and when it holds a truthy value it is registered at that value. *)
Theorem source_directory_by_truthiness o name value h pathname r w :
  build_handler load_class (sys_path w) (name, value) = Ok h →
  schedule_returns observer_raises o →
  ∃ path,
    schedule_tricks o [[(name, value)]] pathname r w
    = (Ok tt, add_trace (ESchedule o h path r) w)
    ∧ (ob_dict h !! "source_directory"%string = None → path = PyStr pathname)
    ∧ (∀ v, ob_dict h !! "source_directory"%string = Some v →
            truthy v = false → path = PyStr pathname)
    ∧ (∀ v, ob_dict h !! "source_directory"%string = Some v →
            truthy v = true → path = v)
    ∧ truthy PyNone = false ∧ truthy (PyStr "") = false.
Proof.
  intros Hb Hs. exists (trick_pathname h pathname). split.
  - rewrite schedule_tricks_concat.
    rewrite (schedule_items_ok o pathname r _ [h]); [|by repeat constructor|done].
    unfold add_trace. by rewrite trick_pathname_spec.
  - unfold trick_pathname, py_or, getattr.
    repeat split; try done.
    + by intros ->.
    + by intros v -> ->.
    + by intros v -> ->.
Qed.

(** C9. [schedule_tricks] constructs and registers one handler per key-value
    pair of each entry: the registrations are those of the pairs of all
    entries taken in order, so an entry with several keys gives several
    registrations and an entry with an empty mapping gives none. *)
Theorem schedule_tricks_per_pair o (tricks : list trick) hs pathname r w :
  Forall2 (λ item h, build_handler load_class (sys_path w) item = Ok h)
    (concat tricks) hs →
  schedule_returns observer_raises o →
  schedule_tricks o tricks pathname r w
  = (Ok tt, set_trace (trace w ++ (watch_event o pathname r <$> hs)) w)
  ∧ length hs = sum_list (length <$> tricks)
  ∧ schedule_tricks o ([] :: tricks) pathname r w = schedule_tricks o tricks pathname r w.
Proof.
  intros HF Hs. split; [|split].
  - rewrite schedule_tricks_concat. by apply schedule_items_ok.
  - apply Forall2_length in HF. rewrite <- HF. clear.
    induction tricks as [|t ts IH]; [done|].
    rewrite fmap_cons. simpl. by rewrite length_app, IH.
  - done.
Qed.

(** C1, amended. For a list of entries that are single-key mappings, each of
    which resolves and constructs, [schedule_tricks] makes exactly one
    registration per entry, in declaration order: the handler is the one its
    class returns for the entry's parameter mapping, the path is the
    handler's [source_directory] when that attribute is truthy and the
    default pathname otherwise, and the recursive flag is the given one. *)
Theorem schedule_tricks_single_key o (specs : list (string * pyval)) hs pathname r w :
  Forall2 (λ spec h, build_handler load_class (sys_path w) spec = Ok h) specs hs →
  schedule_returns observer_raises o →
  schedule_tricks o ((λ spec, [spec]) <$> specs) pathname r w
  = (Ok tt, set_trace (trace w ++ (watch_event o pathname r <$> hs)) w)
  ∧ length (scheduled o (watch_event o pathname r <$> hs)) = length specs.
Proof.
  intros HF Hs. split.
  - rewrite schedule_tricks_concat.
    replace (concat ((λ spec, [spec]) <$> specs)) with specs; [by apply schedule_items_ok|].
    clear. induction specs as [|x xs IH]; [done|]. rewrite fmap_cons. simpl. by f_equal.
  - rewrite scheduled_watch_events. symmetry. by apply Forall2_length in HF.
Qed.

(** C6. When the handler of a pair cannot be constructed, [schedule_tricks]
    raises at once: the registrations of the pairs before it have been made
    and stay, and nothing is registered for the failing pair or any pair
    after it. *)
Theorem schedule_tricks_stops_at_failure o (tricks : list trick) pre bad post hs e
    pathname r w :
  concat tricks = pre ++ bad :: post →
  Forall2 (λ item h, build_handler load_class (sys_path w) item = Ok h) pre hs →
  build_handler load_class (sys_path w) bad = Raise e →
  schedule_returns observer_raises o →
  schedule_tricks o tricks pathname r w
  = (Raise e, set_trace (trace w ++ (watch_event o pathname r <$> hs)) w)
  ∧ length (scheduled o (watch_event o pathname r <$> hs)) = length pre.
Proof.
  intros Hc HF Hb Hs. split.
  - rewrite schedule_tricks_concat, Hc.
    by apply schedule_items_raise.
  - rewrite scheduled_watch_events. symmetry. by apply Forall2_length in HF.
Qed.

End Scheduling.

(** ** The scheduling statements on explicit inputs *)

Lemma never_raises_schedule_returns o : schedule_returns Example.never_raises o.
Proof. by intros h p r. Qed.

(** C1, as stated, fails: an entry with two keys gives two registrations for
    one entry, and a handler that declares an empty [source_directory] is
    registered at the default pathname. *)
Lemma schedule_tricks_not_one_per_spec :
  (∃ w, schedule_tricks Example.load_class Example.never_raises 0
          [[Example.logger; Example.mover]] "." true Example.w0 = (Ok tt, w)
        ∧ length [[Example.logger; Example.mover]] = 1%nat
        ∧ length (scheduled 0 (trace w)) = 2%nat)
  ∧ (∃ h w, build_handler Example.load_class (sys_path Example.w0) Example.blank = Ok h
        ∧ ob_dict h !! "source_directory"%string = Some (PyStr "")
        ∧ schedule_tricks Example.load_class Example.never_raises 0
            [[Example.blank]] "." true Example.w0 = (Ok tt, w)
        ∧ scheduled 0 (trace w) = [(h, PyStr ".", true)]).
Proof.
  split.
  - eexists. split; [reflexivity|]. split; reflexivity.
  - eexists _, _. split; [reflexivity|]. split; [reflexivity|]. split; reflexivity.
Qed.

Lemma source_directory_by_truthiness_witness :
  build_handler Example.load_class (sys_path Example.w0) Example.mover
  = Ok Example.mover_handler
  ∧ ∃ path,
      schedule_tricks Example.load_class Example.never_raises 0
        [[Example.mover]] "." true Example.w0
      = (Ok tt, add_trace (ESchedule 0 Example.mover_handler path true) Example.w0)
      ∧ path = PyStr "/srv/in".
Proof.
  split; [reflexivity|].
  destruct (source_directory_by_truthiness Example.load_class Example.never_raises
              0 "tricks.Mover" (PyDict [("source_directory"%string, PyStr "/srv/in")])
              Example.mover_handler "." true Example.w0)
    as (path & Hrun & _ & _ & Htrue & _);
    [reflexivity | apply never_raises_schedule_returns |].
  exists path. split; [exact Hrun|].
  apply (Htrue (PyStr "/srv/in")); reflexivity.
Defined.

Lemma schedule_tricks_per_pair_witness :
  schedule_tricks Example.load_class Example.never_raises 0
    [[Example.logger; Example.mover]; []] "." true Example.w0
  = (Ok tt, set_trace (trace Example.w0 ++
                     (watch_event 0 "." true <$>
                        [Example.logger_handler; Example.mover_handler]))
              Example.w0).
Proof.
  apply (schedule_tricks_per_pair Example.load_class Example.never_raises 0
           [[Example.logger; Example.mover]; []]
           [Example.logger_handler; Example.mover_handler] "." true Example.w0).
  - repeat constructor.
  - apply never_raises_schedule_returns.
Defined.

Lemma schedule_tricks_single_key_witness :
  schedule_tricks Example.load_class Example.never_raises 0
    [[Example.logger]; [Example.mover]] "." true Example.w0
  = (Ok tt, set_trace (trace Example.w0 ++
                     (watch_event 0 "." true <$>
                        [Example.logger_handler; Example.mover_handler]))
              Example.w0).
Proof.
  apply (schedule_tricks_single_key Example.load_class Example.never_raises 0
           [Example.logger; Example.mover]
           [Example.logger_handler; Example.mover_handler] "." true Example.w0).
  - repeat constructor.
  - apply never_raises_schedule_returns.
Defined.

Lemma schedule_tricks_stops_at_failure_witness :
  schedule_tricks Example.load_class Example.never_raises 0
    [[Example.logger]; [Example.missing]; [Example.mover]] "." true Example.w0
  = (Raise (Exception "ImportError"),
     set_trace (trace Example.w0 ++ (watch_event 0 "." true <$> [Example.logger_handler]))
       Example.w0).
Proof.
  apply (schedule_tricks_stops_at_failure Example.load_class Example.never_raises 0
           [[Example.logger]; [Example.missing]; [Example.mover]]
           [Example.logger] Example.missing [Example.mover]
           [Example.logger_handler] (Exception "ImportError") "." true Example.w0).
  - reflexivity.
  - repeat constructor.
  - reflexivity.
  - apply never_raises_schedule_returns.
Defined.

(** ** What a computation adds to the trace *)


Lemma emits_nothing {A : Type} (P : list event → Prop) (c : M A) :
  P [] → (∀ w, trace (c w).2 = trace w) → emits P c.
Proof. intros HP Hc w. exists []. by rewrite Hc, app_nil_r. Qed.

Lemma emits_bind {A B : Type} (P Q R : list event → Prop) (c : M A) (k : A → M B) :
  emits P c → (∀ a, emits Q (k a)) →
  (∀ l, P l → R l) → (∀ l1 l2, P l1 → Q l2 → R (l1 ++ l2)) →
  emits R (bind c k).
Proof.
  intros Hc Hk HR1 HR2 w. unfold bind.
  destruct (Hc w) as (l1 & Hl1 & HP).
  destruct (c w) as [[a|e|h] w1]; simpl in *; [|by eauto..].
  destruct (Hk a w1) as (l2 & Hl2 & HQ).
  exists (l1 ++ l2). rewrite Hl2, Hl1, <- app_assoc. eauto.
Qed.

Lemma emits_emit (P : list event → Prop) (e : event) : P [e] → emits P (emit e).
Proof. intros HP w. by exists [e]. Qed.

Lemma emits_Forall_bind {A B : Type} (p : event → Prop) (c : M A) (k : A → M B) :
  emits (Forall p) c → (∀ a, emits (Forall p) (k a)) → emits (Forall p) (bind c k).
Proof.
  intros Hc Hk. eapply emits_bind; [done..|].
  intros l1 l2 H1 H2. by apply Forall_app.
Qed.

Lemma emits_Forall_for_each {A : Type} (p : event → Prop) (xs : list A) (body : A → M unit) :
  (∀ x, emits (Forall p) (body x)) → emits (Forall p) (for_each xs body).
Proof.
  intros Hb. induction xs as [|x xs IH]; simpl.
  - by apply emits_nothing.
  - by apply emits_Forall_bind.
Qed.

Lemma emits_Forall_try_except (p : event → Prop) (body handler : M unit) :
  emits (Forall p) body → emits (Forall p) handler →
  emits (Forall p) (try_except_shutdown body handler).
Proof.
  intros Hb Hh w. unfold try_except_shutdown.
  destruct (Hb w) as (l1 & Hl1 & H1).
  destruct (body w) as [[[]|e|h] w1]; simpl in *; [by eauto| |by eauto].
  destruct e; simpl; try by eauto.
  destruct (Hh w1) as (l2 & Hl2 & H2).
  exists (l1 ++ l2). rewrite Hl2, Hl1, <- app_assoc. split; [done|by apply Forall_app].
Qed.











Lemma neuter_spec (signums : list Z) (w : world) :
  for_each signums (λ signum, signal_signal signum SIG_IGN) w
  = (Ok tt, set_signal_table
              (foldl (λ t signum, <[signum := SIG_IGN]> t) (signal_table w) signums) w).
Proof.
  revert w. induction signums as [|x l IH]; intros w; simpl; [by destruct w|].
  unfold bind. simpl. by rewrite IH.
Qed.

Lemma deliver_trace (signum : Z) (w : world) : trace (deliver signum w).2 = trace w.
Proof.
  unfold deliver, bind, get. simpl.
  destruct (signal_table w !! signum) as [[]|]; try reflexivity.
  all: unfold handler_termination_signal, bind; by rewrite neuter_spec.
Qed.

Section Ordering.

Variable load_class : list string → string → result pyclass.
Variable observer_raises : event → option exn.
Variable filesystem : gmap string (result config).
Variable os_pathsep : ascii.
Variable os_path_dirname : string → string.
Variable arrivals : list (list arrival).

Abbreviation observer_call := (observer_call observer_raises).
Abbreviation schedule_tricks := (schedule_tricks load_class observer_raises).
Abbreviation start_observer :=
  (start_observer load_class observer_raises filesystem os_path_dirname).
Abbreviation start_observers :=
  (start_observers load_class observer_raises filesystem os_path_dirname).
Abbreviation run_observers := (run_observers observer_raises arrivals).
Abbreviation tricks_from :=
  (tricks_from load_class observer_raises filesystem os_pathsep os_path_dirname arrivals).

Lemma emits_observer_call (P : list event → Prop) (e : event) :
  P [e] → emits P (observer_call e).
Proof.
  intros HP w. exists [e]. split; [|done].
  unfold observer_call, bind, emit, modify. simpl. by destruct (observer_raises e).
Qed.

Lemma emits_add_to_sys_path (pathnames : list string) (index : Z) :
  emits (Forall (λ e, is_start e = false)) (add_to_sys_path pathnames index).
Proof.
  apply emits_Forall_for_each. intros pathname w.
  exists [ESysPathInsert index pathname]. split; [done|]. by repeat constructor.
Qed.

Lemma emits_schedule_tricks (p : event → Prop) o tricks pathname r :
  (∀ h path, p (ESchedule o h path r)) →
  emits (Forall p) (schedule_tricks o tricks pathname r).
Proof.
  intros Hp. apply emits_Forall_for_each. intros t.
  apply emits_Forall_for_each. intros [name value].
  unfold schedule_trick.
  apply emits_Forall_bind; [by apply emits_nothing|]. intros w.
  apply emits_Forall_bind; [by apply emits_nothing|]. intros C.
  apply emits_Forall_bind; [by apply emits_nothing|]. intros h.
  apply emits_observer_call. by repeat constructor.
Qed.

Lemma emits_poll_loop (p : event → Prop) (on_event : M unit)
    (pending : list (list arrival)) :
  p ESleep → emits (Forall p) on_event → emits (Forall p) (poll_loop on_event pending).
Proof.
  intros Hp Hon. induction pending as [|arrived pending IH]; simpl.
  - by apply emits_nothing.
  - apply emits_Forall_bind; [|done]. unfold sleep.
    apply emits_Forall_bind; [apply emits_emit; by repeat constructor|]. intros _.
    apply emits_Forall_for_each. intros [signum|]; [|done].
    apply emits_nothing; [done|]. apply deliver_trace.
Qed.


Lemma emits_new_observer (P : list event → Prop) (cls : observer_class) :
  (∀ o, P [ENewObserver o cls]) → emits P (new_observer observer_raises cls).
Proof.
  intros HP w. exists [ENewObserver (next_observer w) cls]. split; [|done].
  unfold new_observer, bind, get, modify, observer_call, bind, emit, modify. simpl.
  by destruct (observer_raises _).
Qed.





Lemma bind_ret_unit (c : M unit) (w : world) : (c ;; ret tt) w = c w.
Proof. unfold bind, ret. by destruct (c w) as [[[]|e|h] w']. Qed.

Lemma for_each_bind_list {A B : Type} (xs : list A) (g : A → list B)
    (body : B → M unit) (w : world) :
  for_each xs (λ x, for_each (g x) body) w = for_each (xs ≫= g) body w.
Proof.
  revert w. induction xs as [|x xs IH]; intros w; [done|].
  change ((x :: xs) ≫= g) with (g x ++ (xs ≫= g)).
  rewrite for_each_app. simpl. unfold bind.
  destruct (for_each (g x) body w) as [[[]|e|h] w']; [apply IH|done..].
Qed.

Lemma calls_ok (calls : list event) (w : world) :
  Forall (λ c, observer_raises c = None) calls →
  for_each calls observer_call w = (Ok tt, set_trace (trace w ++ calls) w).
Proof.
  intros Hc. revert w. induction Hc as [|c calls Hc _ IH]; intros w; simpl.
  - destruct w; simpl. by rewrite app_nil_r.
  - unfold bind, observer_call, bind, emit, modify. simpl. rewrite Hc. simpl.
    rewrite IH. simpl. by rewrite <- app_assoc.
Qed.

Lemma calls_raise (pre post : list event) (c : event) (e : exn) (w : world) :
  Forall (λ c, observer_raises c = None) pre →
  observer_raises c = Some e →
  for_each (pre ++ c :: post) observer_call w
  = (Raise e, set_trace (trace w ++ pre ++ [c]) w).
Proof.
  intros Hpre Hc. rewrite for_each_app, calls_ok by done. simpl.
  unfold bind, observer_call, bind, emit, modify. simpl. rewrite Hc. simpl.
  unfold add_trace, set_trace. simpl. by rewrite <- app_assoc.
Qed.

Lemma stop_observers_calls (observers : list nat) (w : world) :
  stop_observers observer_raises observers w
  = for_each (observers ≫= λ o, [EUnscheduleAll o; EStop o]) observer_call w.
Proof.
  unfold stop_observers. revert w.
  induction observers as [|o os IH]; intros w; [done|].
  cbn [for_each mbind list_bind app]. rewrite !bind_unfold.
  destruct (observer_call (EUnscheduleAll o) w) as [[[]|e|h] w']; [|done..].
  rewrite !bind_unfold.
  destruct (observer_call (EStop o) w') as [[[]|e|h] w'']; [|done..].
  apply IH.
Qed.

Lemma join_observers_calls (observers : list nat) (w : world) :
  join_observers observer_raises observers w
  = for_each (EJoin <$> observers) observer_call w.
Proof.
  unfold join_observers. revert w.
  induction observers as [|o os IH]; intros w; [done|].
  cbn [for_each fmap list_fmap]. unfold bind.
  destruct (observer_call (EJoin o) w) as [[[]|e|h] w']; [apply IH|done..].
Qed.

Lemma run_observers_calls (observers : list nat) (w w1 : world) :
  poll_loop (ret tt) arrivals w = (Raise WatchdogShutdown, w1) →
  run_observers observers w = for_each (teardown_calls observers) observer_call w1.
Proof.
  intros Hpoll. unfold run_observers, teardown_calls, bind at 1, try_except_shutdown.
  rewrite Hpoll, for_each_app, stop_observers_calls.
  destruct (for_each _ observer_call w1) as [[[]|e|h] w2]; [|done..].
  apply join_observers_calls.
Qed.

(** C3, amended. When cancellation interrupts the poll loop of
    [tricks_from], the teardown calls [unschedule_all] and then [stop] on
    each observer in start order, and then [join] on each observer in start
    order.  When none of these calls raises they are all made; the first
    call that raises ends the teardown: its exception propagates and the
    calls after it are not made. *)
Theorem teardown_stops_at_first_failure (observers : list nat) (w w1 : world) :
  poll_loop (ret tt) arrivals w = (Raise WatchdogShutdown, w1) →
  (Forall (λ c, observer_raises c = None) (teardown_calls observers) →
   run_observers observers w
   = (Ok tt, set_trace (trace w1 ++ teardown_calls observers) w1))
  ∧ (∀ pre c post e,
       teardown_calls observers = pre ++ c :: post →
       Forall (λ c, observer_raises c = None) pre →
       observer_raises c = Some e →
       run_observers observers w = (Raise e, set_trace (trace w1 ++ pre ++ [c]) w1)).
Proof.
  intros Hpoll. split.
  - intros Hok. rewrite (run_observers_calls _ _ w1) by done. by apply calls_ok.
  - intros pre c post e Hcalls Hpre Hc.
    rewrite (run_observers_calls _ _ w1), Hcalls by done. by apply calls_raise.
Qed.

Lemma bind_Ok_inv {A B : Type} (c : M A) (k : A → M B) (w w' : world) (b : B) :
  bind c k w = (Ok b, w') → ∃ a w1, c w = (Ok a, w1) ∧ k a w1 = (Ok b, w').
Proof.
  rewrite bind_unfold. destruct (c w) as [[a|e|h] w1]; [eauto|done..].
Qed.

Lemma started_app (l1 l2 : list event) : started (l1 ++ l2) = started l1 ++ started l2.
Proof. apply omap_app. Qed.

Lemma started_quiet (l : list event) :
  Forall (λ e, is_start e = false) l → started l = [].
Proof.
  induction 1 as [|e l He _ IH]; [done|]. by destruct e.
Qed.

Lemma new_observer_ok (cls : observer_class) (w : world) :
  observer_raises (ENewObserver (next_observer w) cls) = None →
  new_observer observer_raises cls w
  = (Ok (next_observer w),
     add_trace (ENewObserver (next_observer w) cls) (set_next_observer (S (next_observer w)) w)).
Proof.
  intros Hn. unfold new_observer, bind, get, modify, observer_call, bind, emit, modify.
  simpl. by rewrite Hn.
Qed.

Lemma start_observer_ok_started cls r f (w w' : world) (o : nat) :
  start_observer cls r f w = (Ok o, w') → started (trace w') = started (trace w) ++ [o].
Proof.
  unfold start_observer. intros H.
  apply bind_Ok_inv in H as (o0 & wa & Hnew & H).
  destruct (emits_new_observer (λ l, ∃ o, l = [ENewObserver o cls]) cls) with (w := w)
    as (l0 & Hl0 & [o' ->]); [by eauto|]. rewrite Hnew in Hl0. simpl in Hl0.
  destruct (filesystem !! f) as [loaded|]; [|done].
  apply bind_Ok_inv in H as (cfg & wb & Hlift & H).
  assert (wb = wa) as -> by (unfold lift in Hlift; congruence).
  apply bind_Ok_inv in H as (tricks & wc & Htr & H).
  assert (wc = wa) as -> by (destruct (cfg_tricks cfg); unfold ret, raise in Htr; congruence).
  apply bind_Ok_inv in H as ([] & wd & Hpp & H).
  assert (∃ l1, trace wd = trace wa ++ l1 ∧ Forall (λ e, is_start e = false) l1)
    as (l1 & Hl1 & Hq1).
  { destruct (cfg_python_path cfg) as [roots|].
    - destruct (emits_add_to_sys_path roots 0 wa) as (l1 & Hl1 & Hq1).
      rewrite Hpp in Hl1. eauto.
    - exists []. unfold ret in Hpp. simplify_eq. by rewrite app_nil_r. }
  apply bind_Ok_inv in H as ([] & we & Hsch & H).
  match type of Hsch with
  | schedule_tricks ?o ?t ?p ?r _ = _ =>
      destruct (emits_schedule_tricks (λ e, is_start e = false) o t p r) with (w := wd)
        as (l2 & Hl2 & Hq2); [done|]
  end.
  rewrite Hsch in Hl2. simpl in Hl2.
  apply bind_Ok_inv in H as ([] & wf & Hst & H).
  destruct (emits_observer_call (λ l, l = [EStart o0]) (EStart o0)) with (w := we)
    as (l3 & Hl3 & ->); [done|]. rewrite Hst in Hl3. simpl in Hl3.
  unfold ret in H. simplify_eq.
  rewrite Hl3, Hl2, Hl1, Hl0, !started_app.
  rewrite (started_quiet l1), (started_quiet l2) by done. simpl.
  by rewrite !app_nil_r.
Qed.

Lemma start_observers_ok_started cls r fs acc (w w' : world) (obs : list nat) :
  start_observers cls r fs acc w = (Ok obs, w') →
  ∃ new, obs = acc ++ new ∧ length new = length fs
         ∧ started (trace w') = started (trace w) ++ new.
Proof.
  revert acc w. induction fs as [|f fs IH]; intros acc w H; simpl in H.
  - unfold ret in H. simplify_eq. exists []. by rewrite !app_nil_r.
  - apply bind_Ok_inv in H as (o & w1 & Ho & H).
    apply IH in H as (new & -> & Hlen & Hst).
    apply start_observer_ok_started in Ho.
    exists (o :: new). rewrite <- app_assoc. split; [done|]. split; [simpl; lia|].
    by rewrite Hst, Ho, <- app_assoc.
Qed.

Lemma start_observers_app cls r fs1 fs2 acc (w : world) :
  start_observers cls r (fs1 ++ fs2) acc w
  = match start_observers cls r fs1 acc w with
    | (Ok obs, w1) => start_observers cls r fs2 obs w1
    | (Raise e, w1) => (Raise e, w1)
    | (Halt h, w1) => (Halt h, w1)
    end.
Proof.
  revert acc w. induction fs1 as [|f fs1 IH]; intros acc w; [done|].
  simpl. rewrite !bind_unfold.
  destruct (start_observer cls r f w) as [[o|e|h] w1]; [apply IH|done..].
Qed.





End Ordering.

(** ** Termination signals *)

Lemma lookup_foldl_insert (d : disposition) (t : gmap Z disposition) (l : list Z) (k : Z) :
  foldl (λ t signum, <[signum := d]> t) t l !! k
  = if decide (k ∈ l) then Some d else t !! k.
Proof.
  revert t. induction l as [|x l IH]; intros t; simpl; [done|].
  rewrite IH. destruct (decide (k ∈ l)) as [Hin|Hout].
  - rewrite decide_True; [done|by right].
  - destruct (decide (k = x)) as [->|Hne].
    + rewrite lookup_insert_eq. rewrite decide_True; [done|by left].
    + rewrite lookup_insert_ne by done. rewrite decide_False; [done|].
      rewrite elem_of_cons. by intros [?|?].
Qed.

Lemma install_spec (w : world) :
  install_termination_handler w
  = (Ok tt, set_signal_table
              (foldl (λ t signum, <[signum := Handler_termination_signal]> t)
                 (signal_table w) (elements termination_signals)) w).
Proof.
  unfold install_termination_handler. generalize (elements termination_signals).
  intros l. revert w. induction l as [|x l IH]; intros w; simpl; [by destruct w|].
  rewrite bind_unfold. simpl. by rewrite IH.
Qed.

Lemma deliver_handled (signum : Z) (w : world) :
  signal_table w !! signum = Some Handler_termination_signal →
  deliver signum w
  = (Raise WatchdogShutdown,
     set_signal_table
       (foldl (λ t signum, <[signum := SIG_IGN]> t) (signal_table w)
          (elements termination_signals)) w).
Proof.
  intros Hs. unfold deliver. rewrite bind_unfold. simpl. rewrite Hs.
  unfold handler_termination_signal. by rewrite bind_unfold, neuter_spec.
Qed.

Lemma deliver_ignored (signum : Z) (w : world) :
  signal_table w !! signum = Some SIG_IGN → deliver signum w = (Ok tt, w).
Proof. intros Hs. unfold deliver. rewrite bind_unfold. simpl. by rewrite Hs. Qed.

Lemma deliver_all_ignored (signums : list Z) (w : world) :
  Forall (λ signum, signal_table w !! signum = Some SIG_IGN) signums →
  for_each signums deliver w = (Ok tt, w) ∧ cancellations signums w = 0%nat.
Proof.
  induction 1 as [|signum signums Hs _ [IH1 IH2]]; [done|]. simpl.
  by rewrite bind_unfold, deliver_ignored.
Qed.

(** C2. Once [auto_restart] has installed its handler, the first termination
    signal delivered makes the handler set every termination signal to
    [SIG_IGN] and then raise [WatchdogShutdown]; every termination signal
    delivered afterwards returns without raising and leaves the world as it
    is, so that over the whole sequence [WatchdogShutdown] is raised exactly
    once. *)
Theorem termination_signal_cancels_once (w : world) (first : Z) (later : list Z) :
  first ∈ termination_signals →
  Forall (λ signum, signum ∈ termination_signals) later →
  ∃ w_armed w_neutered,
    install_termination_handler w = (Ok tt, w_armed)
    ∧ deliver first w_armed = (Raise WatchdogShutdown, w_neutered)
    ∧ (∀ signum, signum ∈ termination_signals →
                 signal_table w_neutered !! signum = Some SIG_IGN)
    ∧ (∀ signum, signum ∉ termination_signals →
                 signal_table w_neutered !! signum = signal_table w !! signum)
    ∧ trace w_neutered = trace w
    ∧ for_each later deliver w_neutered = (Ok tt, w_neutered)
    ∧ cancellations (first :: later) w_armed = 1%nat.
Proof.
  intros Hfirst Hlater.
  set (wa := set_signal_table
               (foldl (λ t signum, <[signum := Handler_termination_signal]> t)
                  (signal_table w) (elements termination_signals)) w).
  set (wn := set_signal_table
               (foldl (λ t signum, <[signum := SIG_IGN]> t)
                  (signal_table wa) (elements termination_signals)) wa).
  assert (∀ signum, signum ∈ termination_signals →
            signal_table wa !! signum = Some Handler_termination_signal) as Harmed.
  { intros signum Hin. unfold wa. cbn [signal_table set_signal_table].
    rewrite lookup_foldl_insert.
    by rewrite decide_True by (by apply elem_of_elements). }
  assert (∀ signum, signum ∈ termination_signals →
            signal_table wn !! signum = Some SIG_IGN) as Hign.
  { intros signum Hin. unfold wn. cbn [signal_table set_signal_table].
    rewrite lookup_foldl_insert.
    by rewrite decide_True by (by apply elem_of_elements). }
  assert (deliver first wa = (Raise WatchdogShutdown, wn)) as Hdeliver
    by (by apply deliver_handled, Harmed).
  assert (Forall (λ signum, signal_table wn !! signum = Some SIG_IGN) later) as Hall.
  { eapply Forall_impl; [exact Hlater|]. intros signum Hin. by apply Hign. }
  apply deliver_all_ignored in Hall as [Hrun Hcount].
  exists wa, wn. split; [apply install_spec|]. split; [done|]. split; [done|].
  split.
  { intros signum Hout. unfold wn, wa. cbn [signal_table set_signal_table].
    rewrite !lookup_foldl_insert.
    by rewrite !decide_False by (by rewrite elem_of_elements). }
  split; [done|]. split; [done|].
  cbn [cancellations]. by rewrite Hdeliver, Hcount.
Qed.

(** ** The supervised child *)

Lemma never_two_app (alive : list nat) (l1 l2 : list event) :
  never_two alive (l1 ++ l2)
  = never_two alive l1 && never_two (foldl step_running alive l1) l2.
Proof.
  revert alive. induction l1 as [|e l1 IH]; intros alive; [done|].
  simpl. by rewrite IH, andb_assoc.
Qed.

Lemma phase_after_app sig ka (ph : child_phase) (l1 l2 : list event) :
  phase_after sig ka ph (l1 ++ l2)
  = phase_after sig ka ph l1 ≫= λ ph', phase_after sig ka ph' l2.
Proof.
  revert ph. induction l1 as [|e l1 IH]; intros ph; [done|]. simpl.
  destruct (phase_step sig ka ph e); [apply IH|done].
Qed.

Lemma supervised_same (w w' : world) :
  trace w' = trace w → process w' = process w → supervised w → supervised w'.
Proof. unfold supervised. by intros -> ->. Qed.

Lemma supervised_quiet (w : world) (e : event) :
  is_supervisor_event e = false → supervised w → supervised (add_trace e w).
Proof.
  intros He [Hn Hr]. unfold supervised, running_after in *. simpl.
  rewrite never_two_app, foldl_app, Hn, Hr. simpl.
  assert (∀ alive, step_running alive e = alive) as -> by (by destruct e).
  split; [|done]. by destruct (process w).
Qed.

Lemma conforms_same sig ka (w0 w w' : world) :
  trace w' = trace w → process w' = process w →
  conforms sig ka w0 w → conforms sig ka w0 w'.
Proof. unfold conforms. by intros -> ->. Qed.

Lemma conforms_quiet sig ka (w0 w : world) (e : event) :
  is_supervisor_event e = false →
  conforms sig ka w0 w → conforms sig ka w0 (add_trace e w).
Proof.
  intros He (added & Ht & Hph). exists (added ++ [e]). simpl.
  rewrite Ht, <- app_assoc, phase_after_app, Hph. split; [done|]. simpl.
  by destruct e.
Qed.

Lemma quiet_running (alive : list nat) (l : list event) :
  Forall (λ e, is_child_event e = false) l → (length alive ≤ 1)%nat →
  never_two alive l = true ∧ foldl step_running alive l = alive.
Proof.
  intros Hl Ha. induction Hl as [|e l He _ [IH1 IH2]]; [done|]. simpl.
  assert (step_running alive e = alive) as -> by (by destruct e).
  rewrite IH1, IH2. split; [|done]. by apply andb_true_iff, conj; [apply Nat.leb_le|].
Qed.

Ltac stop_sequence_cases child t pid :=
  unfold stop_sequence;
  destruct (gone_before_stop (child pid));
    [|destruct (kill_after t) as [limit|typed];
      [destruct (exit_delay (child pid)) as [d|]; [destruct (d <=? limit)%nat|]|]].

Lemma stop_sequence_split (child : nat → child_profile) (t : AutoRestartTrick) (pid : nat) :
  ∃ signals, stop_sequence child t pid = signals ++ [EExit pid]
             ∧ Forall (λ e, is_child_event e = false) signals.
Proof.
  stop_sequence_cases child t pid;
    (eexists (EKillpg pid (stop_signal t) :: _); split; [reflexivity|by repeat constructor]).
Qed.

Lemma stop_sequence_running (child : nat → child_profile) (t : AutoRestartTrick) (pid : nat) :
  never_two [pid] (stop_sequence child t pid) = true
  ∧ foldl step_running [pid] (stop_sequence child t pid) = [].
Proof.
  destruct (stop_sequence_split child t pid) as (signals & -> & Hq).
  rewrite never_two_app, foldl_app.
  destruct (quiet_running [pid] signals Hq) as [-> ->]; [simpl; lia|].
  cbn [never_two foldl]. cbn [step_running].
  by rewrite filter_cons_False, filter_nil by naive_solver.
Qed.

Lemma stop_sequence_phase (child : nat → child_profile) (t : AutoRestartTrick)
    (pid limit : nat) :
  kill_after t = Seconds limit →
  phase_after (stop_signal t) limit (Running pid) (stop_sequence child t pid)
  = Some NoChild.
Proof.
  intros Hk. unfold stop_sequence. rewrite Hk.
  destruct (gone_before_stop (child pid)); [|destruct (exit_delay (child pid)) as [d|];
    [destruct (Nat.leb_spec d limit)|]];
    cbn [app phase_after phase_step];
    repeat (rewrite bool_decide_eq_true_2 by (repeat split; done || lia);
            cbn [phase_after phase_step]);
    done.
Qed.

Lemma stop_sequence_launches (child : nat → child_profile) (t : AutoRestartTrick)
    (pid : nat) (cmd : list string) :
  Forall (launches cmd) (stop_sequence child t pid).
Proof. stop_sequence_cases child t pid; by repeat constructor. Qed.

Lemma hoare_bind {A B : Type} (I : world → Prop) (c : M A) (k : A → M B) :
  hoare I c I → (∀ a, hoare I (k a) I) → hoare I (bind c k) I.
Proof.
  intros Hc Hk w Hw. rewrite bind_unfold. specialize (Hc w Hw).
  destruct (c w) as [[a|e|h] w1]; simpl in *; [by apply Hk|done..].
Qed.

Lemma hoare_for_each {A : Type} (I : world → Prop) (xs : list A) (body : A → M unit) :
  (∀ x, hoare I (body x) I) → hoare I (for_each xs body) I.
Proof.
  intros Hb. induction xs as [|x xs IH]; simpl; [by intros w|].
  by apply hoare_bind.
Qed.

Lemma hoare_try_except (I : world → Prop) (body handler : M unit) :
  hoare I body I → hoare I handler I → hoare I (try_except_shutdown body handler) I.
Proof.
  intros Hb Hh w Hw. unfold try_except_shutdown. specialize (Hb w Hw).
  destruct (body w) as [[[]|e|h] w1]; simpl in *; [done| |done].
  destruct e; simpl; try done. by apply Hh.
Qed.

Lemma hoare_try_finally (I : world → Prop) (body final : M unit) :
  hoare I body I → hoare I final I → hoare I (try_finally body final) I.
Proof.
  intros Hb Hf w Hw. unfold try_finally. specialize (Hb w Hw).
  destruct (body w) as [[[]|e|h] w1]; simpl in *; [by apply Hf| |done].
  rewrite bind_unfold. specialize (Hf w1 Hb).
  by destruct (final w1) as [[[]|e'|h] w2].
Qed.

Lemma emits_Forall_try_finally (p : event → Prop) (body final : M unit) :
  emits (Forall p) body → emits (Forall p) final →
  emits (Forall p) (try_finally body final).
Proof.
  intros Hb Hf w. unfold try_finally.
  destruct (Hb w) as (l1 & Hl1 & H1).
  destruct (body w) as [[[]|e|h] w1]; simpl in *; [| |by eauto].
  - destruct (Hf w1) as (l2 & Hl2 & H2).
    exists (l1 ++ l2). rewrite Hl2, Hl1, <- app_assoc. split; [done|by apply Forall_app].
  - rewrite bind_unfold. destruct (Hf w1) as (l2 & Hl2 & H2).
    exists (l1 ++ l2). split; [|by apply Forall_app].
    destruct (final w1) as [[[]|e'|h] w2]; simpl in *; by rewrite Hl2, Hl1, <- app_assoc.
Qed.

Lemma deliver_process (signum : Z) (w : world) : process (deliver signum w).2 = process w.
Proof.
  unfold deliver. rewrite bind_unfold. simpl.
  destruct (signal_table w !! signum) as [[]|]; try reflexivity.
  all: unfold handler_termination_signal; by rewrite bind_unfold, neuter_spec.
Qed.

(** An invariant that looks at the trace and at the child the handler holds
    only, and that no event outside the supervision disturbs, holds
    throughout [auto_restart] as soon as starting and stopping the child
    keep it. *)
Section Invariant.

Variable I : world → Prop.
Hypothesis I_same :
  ∀ w w', trace w' = trace w → process w' = process w → I w → I w'.
Hypothesis I_quiet :
  ∀ w e, is_supervisor_event e = false → I w → I (add_trace e w).

Variable observer_raises : event → option exn.
Variable arrivals : list (list arrival).
Variable set_order : list string → list string.
Variable signal_by_name : string → option Z.
Variable py_int : string → option Z.
Variable child : nat → child_profile.

Lemma inv_same {A : Type} (c : M A) :
  (∀ w, trace (c w).2 = trace w ∧ process (c w).2 = process w) → hoare I c I.
Proof. intros Hc w Hw. destruct (Hc w). by eapply I_same. Qed.

Lemma inv_observer_call (e : event) :
  is_supervisor_event e = false → hoare I (observer_call observer_raises e) I.
Proof.
  intros He. unfold observer_call. apply hoare_bind; [intros w; by apply I_quiet|].
  intros _. destruct (observer_raises e); by apply inv_same.
Qed.

Lemma inv_new_observer (cls : observer_class) :
  hoare I (new_observer observer_raises cls) I.
Proof.
  unfold new_observer. apply hoare_bind; [by apply inv_same|]. intros w.
  apply hoare_bind; [by apply inv_same|]. intros _.
  apply hoare_bind; [by apply inv_observer_call|]. intros _. by apply inv_same.
Qed.

Lemma inv_poll_loop (on_event : M unit) (pending : list (list arrival)) :
  hoare I on_event I → hoare I (poll_loop on_event pending) I.
Proof.
  intros Hon. induction pending as [|arrived pending IH]; simpl; [by apply inv_same|].
  apply hoare_bind; [|done]. unfold sleep.
  apply hoare_bind; [intros w; by apply I_quiet|]. intros _.
  apply hoare_for_each. intros [signum|]; [|done].
  apply inv_same. intros w. split; [apply deliver_trace|apply deliver_process].
Qed.

Lemma inv_observe_with o h (on_event : M unit) pathnames r :
  hoare I on_event I →
  hoare I (observe_with observer_raises arrivals set_order o h on_event pathnames r) I.
Proof.
  intros Hon. unfold observe_with.
  apply hoare_bind; [apply hoare_for_each; intros x; by apply inv_observer_call|].
  intros _. apply hoare_bind; [by apply inv_observer_call|]. intros _.
  apply hoare_bind; [|intros _; by apply inv_observer_call].
  apply hoare_try_except; [by apply inv_poll_loop|by apply inv_observer_call].
Qed.

Lemma parse_stop_signal_pure (name : string) :
  ∃ r, ∀ w, parse_stop_signal signal_by_name py_int name w = (r, w).
Proof.
  unfold parse_stop_signal.
  destruct (String.prefix "SIG" name); [destruct (signal_by_name name)|destruct (py_int name)];
    by eexists.
Qed.

Lemma inv_auto_restart (args : auto_restart_args) :
  (∀ signum w0 pats ipats,
     parse_stop_signal signal_by_name py_int (ar_signal args) w0 = (Ok signum, w0) →
     let t := Build_AutoRestartTrick ([ar_command args] ++ ar_command_args args)
                pats ipats (ar_ignore_directories args) signum (ar_kill_after args) in
     hoare I (trick_start child t) I ∧ hoare I (trick_stop child t) I) →
  hoare I (auto_restart observer_raises arrivals set_order signal_by_name py_int child args) I.
Proof.
  intros Htrick w Hw. unfold auto_restart. rewrite bind_unfold.
  destruct (parse_stop_signal_pure (ar_signal args)) as [r Hr]. rewrite Hr.
  destruct r as [signum|e|h]; [|done..].
  destruct (parse_patterns _ _) as [pats ipats].
  destruct (Htrick signum w pats ipats (Hr w)) as [Hstart Hstop].
  revert w Hw. apply hoare_bind.
  { apply inv_same. intros w. by rewrite install_spec. }
  intros _. apply hoare_bind; [done|]. intros _.
  apply hoare_bind; [apply inv_new_observer|]. intros o.
  apply hoare_try_finally; [|done].
  apply hoare_try_except; [|by apply inv_same].
  apply inv_observe_with. by apply hoare_bind.
Qed.

End Invariant.

Section Supervision.

Variable observer_raises : event → option exn.
Variable arrivals : list (list arrival).
Variable set_order : list string → list string.
Variable signal_by_name : string → option Z.
Variable py_int : string → option Z.
Variable child : nat → child_profile.

Abbreviation trick_start := (trick_start child).
Abbreviation trick_stop := (trick_stop child).
Abbreviation trick_restart := (trick_restart child).
Abbreviation auto_restart :=
  (auto_restart observer_raises arrivals set_order signal_by_name py_int child).

Lemma trick_stop_absent (t : AutoRestartTrick) (w : world) :
  process w = None → trick_stop t w = (Ok tt, w).
Proof. intros Hp. unfold trick_stop. rewrite bind_unfold. simpl. by rewrite Hp. Qed.

Lemma trick_stop_spec (t : AutoRestartTrick) (w : world) (pid : nat) :
  process w = Some pid →
  stop_completes child t pid = true →
  trick_stop t w
  = (Ok tt, set_process None (set_trace (trace w ++ stop_sequence child t pid) w)).
Proof.
  intros Hp Hc. unfold trick_stop, stop_sequence. rewrite bind_unfold. simpl. rewrite Hp.
  unfold stop_completes in Hc.
  destruct w as [sp st no pr np tr]. simpl in *.
  destruct (gone_before_stop (child pid));
    [|destruct (kill_after t) as [limit|typed]; [|done];
      destruct (exit_delay (child pid)) as [d|]; [destruct (d <=? limit)%nat|]];
    unfold bind, emit, modify, ret, add_trace, set_trace, set_process; simpl;
    by rewrite <- ?app_assoc.
Qed.

Lemma trick_stop_type_error (t : AutoRestartTrick) (w : world) (pid : nat) :
  process w = Some pid →
  stop_completes child t pid = false →
  trick_stop t w
  = (Raise (Exception "TypeError"), add_trace (EKillpg pid (stop_signal t)) w).
Proof.
  intros Hp Hc. unfold trick_stop. rewrite bind_unfold. simpl. rewrite Hp.
  unfold stop_completes in Hc.
  destruct (gone_before_stop (child pid)); [done|].
  destruct (kill_after t) as [limit|typed]; [done|].
  by unfold bind, emit, modify, raise.
Qed.

Lemma trick_start_running (t : AutoRestartTrick) (w : world) (pid : nat) :
  process w = Some pid → trick_start t w = (Ok tt, w).
Proof. intros Hp. unfold trick_start. rewrite bind_unfold. simpl. by rewrite Hp. Qed.

Lemma trick_start_spec (t : AutoRestartTrick) (w : world) :
  process w = None →
  launch_error (child (next_pid w)) = None →
  trick_start t w
  = (Ok tt, set_process (Some (next_pid w))
              (add_trace (EPopen (next_pid w) (command t))
                 (set_next_pid (S (next_pid w)) w))).
Proof.
  intros Hp Hl. unfold trick_start. rewrite bind_unfold. simpl. rewrite Hp.
  rewrite bind_unfold. simpl. by rewrite Hl.
Qed.

Lemma trick_start_fails (t : AutoRestartTrick) (w : world) (e : exn) :
  process w = None →
  launch_error (child (next_pid w)) = Some e →
  trick_start t w = (Raise e, set_next_pid (S (next_pid w)) w).
Proof.
  intros Hp Hl. unfold trick_start. rewrite bind_unfold. simpl. rewrite Hp.
  rewrite bind_unfold. simpl. by rewrite Hl.
Qed.

Lemma supervised_trick_stop (t : AutoRestartTrick) :
  hoare supervised (trick_stop t) supervised.
Proof.
  intros w [Hn Hr]. destruct (process w) as [pid|] eqn:Hp.
  - destruct (stop_completes child t pid) eqn:Hc.
    + rewrite (trick_stop_spec _ _ pid) by done. unfold supervised, running_after. simpl.
      rewrite never_two_app, foldl_app, Hn. fold (running_after (trace w)). rewrite Hr.
      by destruct (stop_sequence_running child t pid) as [-> ->].
    + rewrite (trick_stop_type_error _ _ pid) by done.
      unfold supervised, running_after in *. simpl.
      by rewrite never_two_app, foldl_app, Hn, Hr, Hp.
  - rewrite trick_stop_absent by done. simpl. unfold supervised. by rewrite Hp.
Qed.

Lemma supervised_trick_start (t : AutoRestartTrick) :
  hoare supervised (trick_start t) supervised.
Proof.
  intros w [Hn Hr]. destruct (process w) as [pid|] eqn:Hp.
  - rewrite (trick_start_running _ _ pid) by done. simpl. unfold supervised. by rewrite Hp.
  - destruct (launch_error (child (next_pid w))) as [e|] eqn:Hl.
    + rewrite (trick_start_fails _ _ e) by done. simpl. unfold supervised. simpl.
      by rewrite Hp.
    + rewrite trick_start_spec by done. unfold supervised, running_after in *. simpl.
      by rewrite never_two_app, foldl_app, Hn, Hr.
Qed.

Lemma seconds_complete (t : AutoRestartTrick) (limit pid : nat) :
  kill_after t = Seconds limit → stop_completes child t pid = true.
Proof. intros Hk. unfold stop_completes. rewrite Hk. apply orb_true_r. Qed.

Lemma conforms_trick_stop (t : AutoRestartTrick) (limit : nat) (w0 : world) :
  kill_after t = Seconds limit →
  hoare (conforms (stop_signal t) limit w0) (trick_stop t)
    (conforms (stop_signal t) limit w0).
Proof.
  intros Hk w (added & Ht & Hph). destruct (process w) as [pid|] eqn:Hp.
  - rewrite (trick_stop_spec _ _ pid) by (done || by eapply seconds_complete).
    exists (added ++ stop_sequence child t pid). simpl.
    rewrite Ht, <- app_assoc, phase_after_app, Hph. split; [done|]. simpl.
    by apply stop_sequence_phase.
  - rewrite trick_stop_absent by done. exists added. simpl. by rewrite Hp.
Qed.

Lemma conforms_trick_start (t : AutoRestartTrick) sig ka (w0 : world) :
  hoare (conforms sig ka w0) (trick_start t) (conforms sig ka w0).
Proof.
  intros w (added & Ht & Hph). destruct (process w) as [pid|] eqn:Hp.
  - rewrite (trick_start_running _ _ pid) by done. exists added. simpl. by rewrite Hp.
  - destruct (launch_error (child (next_pid w))) as [e|] eqn:Hl.
    + rewrite (trick_start_fails _ _ e) by done. exists added. simpl. by rewrite Hp.
    + rewrite trick_start_spec by done.
      exists (added ++ [EPopen (next_pid w) (command t)]). simpl.
      rewrite Ht, <- app_assoc, phase_after_app, Hph. done.
Qed.

Lemma emits_trick_stop (t : AutoRestartTrick) (cmd : list string) :
  emits (Forall (launches cmd)) (trick_stop t).
Proof.
  intros w. destruct (process w) as [pid|] eqn:Hp.
  - destruct (stop_completes child t pid) eqn:Hc.
    + rewrite (trick_stop_spec _ _ pid) by done. simpl. eexists. split; [done|].
      apply stop_sequence_launches.
    + rewrite (trick_stop_type_error _ _ pid) by done. simpl. eexists.
      split; [done|]. by repeat constructor.
  - rewrite trick_stop_absent by done. exists []. by rewrite app_nil_r.
Qed.

Lemma emits_trick_start (t : AutoRestartTrick) :
  emits (Forall (launches (command t))) (trick_start t).
Proof.
  intros w. destruct (process w) as [pid|] eqn:Hp.
  - rewrite (trick_start_running _ _ pid) by done. exists []. by rewrite app_nil_r.
  - destruct (launch_error (child (next_pid w))) as [e|] eqn:Hl.
    + rewrite (trick_start_fails _ _ e) by done. exists []. simpl. by rewrite app_nil_r.
    + rewrite trick_start_spec by done. simpl. eexists. split; [done|].
      by repeat constructor.
Qed.

Lemma emits_trick_restart (t : AutoRestartTrick) :
  emits (Forall (launches (command t))) (trick_restart t).
Proof.
  apply emits_Forall_bind; [apply emits_trick_stop|intros _; apply emits_trick_start].
Qed.

Lemma emits_observe_with (p : event → Prop) o h (on_event : M unit) pathnames r :
  (∀ e, is_child_event e = false → p e) →
  emits (Forall p) on_event →
  emits (Forall p) (observe_with observer_raises arrivals set_order o h on_event pathnames r).
Proof.
  intros Hp Hon. unfold observe_with.
  apply emits_Forall_bind.
  { apply emits_Forall_for_each. intros x. apply emits_observer_call.
    repeat constructor. by apply Hp. }
  intros _. apply emits_Forall_bind.
  { apply emits_observer_call. repeat constructor. by apply Hp. }
  intros _. apply emits_Forall_bind.
  - apply emits_Forall_try_except.
    + apply emits_poll_loop; [by apply Hp|done].
    + apply emits_observer_call. repeat constructor. by apply Hp.
  - intros _. apply emits_observer_call. repeat constructor. by apply Hp.
Qed.

Lemma emits_auto_restart (args : auto_restart_args) :
  emits (Forall (launches ([ar_command args] ++ ar_command_args args)))
    (auto_restart args).
Proof.
  unfold auto_restart. apply emits_Forall_bind.
  { apply emits_nothing; [done|]. intros w.
    destruct (parse_stop_signal_pure signal_by_name py_int (ar_signal args)) as [r Hr].
    by rewrite Hr. }
  intros signum. apply emits_Forall_bind.
  { apply emits_nothing; [done|]. intros w. by rewrite install_spec. }
  intros _. destruct (parse_patterns _ _) as [pats ipats].
  apply emits_Forall_bind; [apply (emits_trick_start (Build_AutoRestartTrick _ _ _ _ _ _))|].
  intros _. apply emits_Forall_bind.
  { apply emits_new_observer. by repeat constructor. }
  intros o. apply emits_Forall_try_finally; [|apply emits_trick_stop].
  apply emits_Forall_try_except; [|by apply emits_nothing].
  apply emits_observe_with; [by intros []|].
  apply (emits_trick_restart (Build_AutoRestartTrick _ _ _ _ _ _)).
Qed.

(** X27. Whatever events and signals arrive during a run of
    [auto_restart], and whatever [kill_after] holds, at no point of its
    trace are two children alive, the child alive at its end is the one the
    handler holds, and every child is launched with the command line given
    to the command.  When [kill_after] is a number the trace also keeps,
    from beginning to end, the order of the supervision: the stop signal
    goes to a running child, the wait that follows lasts at most
    [kill_after] seconds, SIGKILL is sent only after a wait of the whole of
    [kill_after], and a child is launched only when there is none. *)
Theorem auto_restart_one_child_at_a_time (args : auto_restart_args) (w : world) :
  supervised w →
  supervised (auto_restart args w).2
  ∧ (∃ added,
       trace (auto_restart args w).2 = trace w ++ added
       ∧ Forall (launches ([ar_command args] ++ ar_command_args args)) added
       ∧ (∀ signum limit,
            parse_stop_signal signal_by_name py_int (ar_signal args) w = (Ok signum, w) →
            ar_kill_after args = Seconds limit →
            phase_after signum limit (phase_of (process w)) added
            = Some (phase_of (process (auto_restart args w).2)))).
Proof.
  intros Hw. split.
  - revert w Hw. apply inv_auto_restart.
    + apply supervised_same.
    + apply supervised_quiet.
    + intros signum w0 pats ipats _ t.
      split; [apply supervised_trick_start|apply supervised_trick_stop].
  - destruct (emits_auto_restart args w) as (added & Ht & Hcmd).
    exists added. split; [done|]. split; [done|]. intros signum limit Hparse Hk.
    assert (conforms signum limit w (auto_restart args w).2)
      as (added' & Ht' & Hph).
    { apply (inv_auto_restart (conforms signum limit w)).
      - apply conforms_same.
      - apply conforms_quiet.
      - intros signum' w0 pats ipats Hparse' t.
        assert (signum' = signum) as ->.
        { destruct (parse_stop_signal_pure signal_by_name py_int (ar_signal args))
            as [r Hr]. rewrite Hr in Hparse, Hparse'. congruence. }
        split; [apply conforms_trick_start|].
        by apply (conforms_trick_stop t).
      - exists []. by rewrite app_nil_r. }
    rewrite Ht in Ht'. by apply app_inv_head in Ht' as ->.
Qed.

End Supervision.

(** ** The statements about [tricks_from] on explicit inputs *)

(** C3, as stated, fails: with two observers started and the first [stop]
    raising, the second observer is never stopped and no observer is
    joined. *)
Lemma teardown_short_circuits :
  ∃ w', tricks_from Example.load_class Example.stop_0_raises Example.filesystem
          ":" Example.dirname Example.one_sigterm
          (Example.args ["good.yaml"; "rooted.yaml"]%string) Example.w_armed
        = (Raise (Exception "RuntimeError"), w')
        ∧ started (trace w') = [0; 1]%nat
        ∧ stopped (trace w') = [0]%nat
        ∧ joined (trace w') = [].
Proof. eexists. split; [vm_compute; reflexivity|]. repeat split; vm_compute; reflexivity. Qed.

Lemma teardown_stops_at_first_failure_witness :
  run_observers Example.stop_0_raises Example.one_sigterm [0; 1]%nat Example.w_armed
  = (Raise (Exception "RuntimeError"),
     set_trace (trace Example.w_neutered ++ [EUnscheduleAll 0] ++ [EStop 0])
       Example.w_neutered).
Proof.
  assert (poll_loop (ret tt) Example.one_sigterm Example.w_armed
          = (Raise WatchdogShutdown, Example.w_neutered)) as Hpoll
    by (vm_compute; reflexivity).
  apply (proj2 (teardown_stops_at_first_failure Example.stop_0_raises
                  Example.one_sigterm [0; 1]%nat Example.w_armed Example.w_neutered
                  Hpoll)
           [EUnscheduleAll 0] (EStop 0)
           [EUnscheduleAll 1; EStop 1; EJoin 0; EJoin 1]
           (Exception "RuntimeError")).
  - vm_compute; reflexivity.
  - repeat constructor.
  - vm_compute; reflexivity.
Defined.





Lemma termination_signal_cancels_once_witness :
  ∃ w_armed w_neutered,
    install_termination_handler Example.w0 = (Ok tt, w_armed)
    ∧ deliver SIGINT w_armed = (Raise WatchdogShutdown, w_neutered)
    ∧ for_each [SIGINT; SIGTERM] deliver w_neutered = (Ok tt, w_neutered)
    ∧ cancellations [SIGINT; SIGINT; SIGTERM] w_armed = 1%nat.
Proof.
  destruct (termination_signal_cancels_once Example.w0 SIGINT [SIGINT; SIGTERM])
    as (w_armed & w_neutered & Hinstall & Hfirst & _ & _ & _ & Hlater & Hcount).
  - vm_compute. set_solver.
  - repeat constructor; vm_compute; set_solver.
  - exists w_armed, w_neutered. repeat split; assumption.
Defined.

(** ** The supervised child on explicit inputs *)

Lemma auto_restart_one_child_at_a_time_witness :
  supervised Example.w0
  ∧ supervised
      (auto_restart Example.never_raises Example.two_events_then_sigint
         Example.set_order Example.signal_by_name Example.py_int Example.child
         Example.server_args Example.w0).2.
Proof.
  assert (supervised Example.w0) as Hw0 by (split; vm_compute; reflexivity).
  split; [exact Hw0|].
  exact (proj1 (auto_restart_one_child_at_a_time Example.never_raises
                  Example.two_events_then_sigint Example.set_order
                  Example.signal_by_name Example.py_int Example.child
                  Example.server_args Example.w0 Hw0)).
Defined.


(** ** [path_split] and [parse_patterns] *)

Lemma str_split_not_nil (sep : ascii) (s : string) : str_split sep s ≠ [].
Proof.
  destruct s as [|c s]; simpl; [done|].
  destruct (Ascii.eqb c sep); [done|]. by destruct (str_split sep s).
Qed.

Lemma str_join_cons_char (sep c : ascii) (field : string) (fields : list string) :
  str_join sep (String c field :: fields) = String c (str_join sep (field :: fields)).
Proof. by destruct fields. Qed.

Lemma str_join_split (sep : ascii) (s : string) : str_join sep (str_split sep s) = s.
Proof.
  induction s as [|c s IH]; [done|]. cbn [str_split].
  destruct (Ascii.eqb_spec c sep) as [->|Hne].
  - pose proof (str_split_not_nil sep s) as Hnn. cbn [str_join].
    destruct (str_split sep s) as [|f fs] eqn:Hs; [done|]. by rewrite IH.
  - pose proof (str_split_not_nil sep s) as Hnn.
    destruct (str_split sep s) as [|f fs]; [done|].
    by rewrite str_join_cons_char, IH.
Qed.

Lemma str_split_length (sep : ascii) (s : string) :
  length (str_split sep s) = S (str_count sep s).
Proof.
  induction s as [|c s IH]; [done|]. cbn [str_split str_count].
  pose proof (str_split_not_nil sep s) as Hnn.
  destruct (Ascii.eqb c sep); [simpl; by rewrite IH|].
  destruct (str_split sep s) as [|f fs]; [done|]. simpl in *. lia.
Qed.

Lemma str_split_fields (sep : ascii) (s : string) :
  Forall (λ field, str_count sep field = 0%nat) (str_split sep s).
Proof.
  induction s as [|c s IH]; [by repeat constructor|]. cbn [str_split].
  destruct (Ascii.eqb c sep) eqn:Hc; [by constructor|].
  destruct (str_split sep s) as [|f fs]; [repeat constructor; simpl; by rewrite Hc|].
  apply Forall_cons in IH as [Hf Hfs]. constructor; [|done]. simpl. by rewrite Hc.
Qed.

Lemma str_split_plain (sep : ascii) (s : string) :
  str_count sep s = 0%nat → str_split sep s = [s].
Proof.
  induction s as [|c s IH]; [done|]. cbn [str_split str_count].
  destruct (Ascii.eqb c sep); [done|]. intros Hs. by rewrite IH.
Qed.

Lemma str_split_append (sep : ascii) (field rest : string) :
  str_count sep field = 0%nat →
  str_split sep (String.append field (String sep rest)) = field :: str_split sep rest.
Proof.
  induction field as [|c field IH]; simpl.
  - intros _. by rewrite Ascii.eqb_refl.
  - destruct (Ascii.eqb c sep); [done|]. intros Hs. by rewrite IH.
Qed.

Lemma str_split_join (sep : ascii) (fields : list string) :
  fields ≠ [] → Forall (λ field, str_count sep field = 0%nat) fields →
  str_split sep (str_join sep fields) = fields.
Proof.
  intros Hnn Hf. induction Hf as [|f fs Hf Hfs IH]; [done|].
  destruct fs as [|f' fs]; [by apply str_split_plain|].
  cbn [str_join]. rewrite str_split_append by done. f_equal. by apply IH.
Qed.

(** X1. [path_split] returns one field more than the specification has
    separators: it never returns an empty list, and the empty specification
    gives the one empty pathname. *)
Theorem path_split_length (pathname_spec : string) (separator : ascii) :
  length (path_split pathname_spec separator) = S (str_count separator pathname_spec)
  ∧ path_split "" separator = [""%string].
Proof. split; [apply str_split_length|done]. Qed.

(** X2. Joining the fields [path_split] returns with the separator gives
    the specification back, and no field contains the separator. *)
Theorem path_split_join (pathname_spec : string) (separator : ascii) :
  str_join separator (path_split pathname_spec separator) = pathname_spec
  ∧ Forall (λ field, str_count separator field = 0%nat)
      (path_split pathname_spec separator).
Proof. split; [apply str_join_split|apply str_split_fields]. Qed.

(** X3. Splitting the join of a non-empty list of pathnames that are free of
    the separator gives the list back. *)
Theorem path_join_split (pathnames : list string) (separator : ascii) :
  pathnames ≠ [] →
  Forall (λ pathname, str_count separator pathname = 0%nat) pathnames →
  path_split (str_join separator pathnames) separator = pathnames.
Proof. apply str_split_join. Qed.

Lemma path_join_split_witness :
  path_split (str_join ":" ["/opt/tricks"; "."; ""]%string) ":"
  = ["/opt/tricks"; "."; ""]%string.
Proof.
  apply (path_join_split ["/opt/tricks"; "."; ""]%string ":").
  - discriminate.
  - repeat constructor.
Defined.

Lemma str_split_singleton_empty (sep : ascii) (s : string) :
  str_split sep s = [""%string] ↔ s = ""%string.
Proof.
  split; [|by intros ->]. intros Hs.
  by rewrite <- (str_join_split sep s), Hs.
Qed.

(** X4. [parse_patterns] never returns an empty list of patterns (the empty
    specification gives the one empty pattern), while the list of ignore
    patterns is empty exactly when the ignore specification is empty. *)
Theorem parse_patterns_empty (patterns_spec ignore_patterns_spec : string) :
  (parse_patterns patterns_spec ignore_patterns_spec).1 ≠ []
  ∧ (parse_patterns "" ignore_patterns_spec).1 = [""%string]
  ∧ ((parse_patterns patterns_spec ignore_patterns_spec).2 = []
     ↔ ignore_patterns_spec = ""%string)
  ∧ str_join ";" (parse_patterns patterns_spec ignore_patterns_spec).1 = patterns_spec
  ∧ str_join ";" (parse_patterns patterns_spec ignore_patterns_spec).2
    = ignore_patterns_spec.
Proof.
  unfold parse_patterns. cbn [fst snd]. split; [apply str_split_not_nil|].
  split; [done|]. split; [|split; [apply str_join_split|]].
  - case_bool_decide as Hi.
    + apply str_split_singleton_empty in Hi. done.
    + split; [intros Hnil; by apply str_split_not_nil in Hnil|].
      intros ->. by destruct Hi.
  - case_bool_decide as Hi; [|apply str_join_split].
    apply str_split_singleton_empty in Hi. by subst.
Qed.

(** ** [add_to_sys_path] at other indices *)

#[local] Arguments py_insert : simpl never.

Lemma py_insert_position {A : Type} (index : Z) (x : A) (l : list A) :
  ∃ k, py_insert index x l = take k l ++ x :: drop k l.
Proof. by eexists. Qed.

Lemma py_insert_beyond {A : Type} (index : Z) (x : A) (l : list A) :
  Z.of_nat (length l) ≤ index → py_insert index x l = l ++ [x].
Proof.
  intros Hi. unfold py_insert. destruct (Z.ltb_spec index 0); [lia|].
  rewrite Z.min_r, Nat2Z.id; [|lia]. by rewrite take_ge, drop_ge by lia.
Qed.

Lemma py_insert_negative {A : Type} (index : Z) (x : A) (l : list A) :
  index < 0 → - index ≤ Z.of_nat (length l) →
  py_insert index x l
  = take (length l - Z.to_nat (- index)) l ++ x :: drop (length l - Z.to_nat (- index)) l.
Proof.
  intros Hneg Hi. unfold py_insert. destruct (Z.ltb_spec index 0); [|lia].
  rewrite Z.max_r by lia.
  by replace (Z.to_nat (index + Z.of_nat (length l)))
    with (length l - Z.to_nat (- index))%nat by lia.
Qed.

Lemma sys_path_inserts_ok (xs : list string) (index : Z) (w : world) :
  (for_each xs (sys_path_insert index) w).1 = Ok tt.
Proof.
  revert w. induction xs as [|x xs IH]; intros w; [done|]. simpl.
  rewrite bind_unfold. simpl. apply IH.
Qed.

Lemma sys_path_inserts_beyond (xs : list string) (index : Z) (w : world) :
  Z.of_nat (length (sys_path w) + length xs) ≤ index →
  sys_path (for_each xs (sys_path_insert index) w).2 = sys_path w ++ xs.
Proof.
  revert w. induction xs as [|x xs IH]; intros w Hi; simpl.
  - by rewrite app_nil_r.
  - rewrite bind_unfold. simpl. rewrite IH; simpl.
    + rewrite py_insert_beyond by (simpl in Hi; lia). by rewrite <- app_assoc.
    + rewrite py_insert_beyond by (simpl in Hi; lia).
      rewrite length_app. simpl in *. lia.
Qed.

Lemma sys_path_inserts_negative (xs : list string) (index : Z) (w : world) :
  index < 0 → - index ≤ Z.of_nat (length (sys_path w)) →
  sys_path (for_each xs (sys_path_insert index) w).2
  = take (length (sys_path w) - Z.to_nat (- index)) (sys_path w) ++ xs
    ++ drop (length (sys_path w) - Z.to_nat (- index)) (sys_path w).
Proof.
  intros Hneg. revert w. induction xs as [|x xs IH]; intros w Hi; simpl.
  - by rewrite take_drop.
  - rewrite bind_unfold. simpl.
    set (m := Z.to_nat (- index)) in *. set (l := sys_path w) in *.
    assert (m ≤ length l)%nat as Hm by lia.
    rewrite IH; simpl; fold l; rewrite py_insert_negative by (fold l; lia); fold m.
    2:{ rewrite length_app, length_take. simpl. rewrite length_drop. lia. }
    assert (length (take (length l - m) l ++ x :: drop (length l - m) l)
            = S (length l)) as Hlen.
    { rewrite length_app, length_take. simpl. rewrite length_drop. lia. }
    rewrite Hlen.
    replace (S (length l) - m)%nat with (length (take (length l - m) l) + 1)%nat
      by (rewrite length_take; lia).
    rewrite take_app_add', drop_app_add' by done. simpl.
    rewrite take_0, drop_0. by rewrite <- app_assoc.
Qed.

Lemma sys_path_inserts_keep (xs : list string) (index : Z) (w : world) :
  sys_path (for_each xs (sys_path_insert index) w).2 ≡ₚ xs ++ sys_path w
  ∧ sublist (sys_path w) (sys_path (for_each xs (sys_path_insert index) w).2).
Proof.
  revert w. induction xs as [|x xs IH]; intros w; [done|]. simpl.
  rewrite bind_unfold. simpl.
  destruct (py_insert_position index x (sys_path w)) as [k Hk].
  match goal with |- context [for_each xs _ ?w1] => destruct (IH w1) as [IHp IHs] end.
  simpl in IHp, IHs. rewrite Hk in IHp, IHs |- *. split.
  - rewrite IHp. rewrite <- Permutation_middle, take_drop.
    by rewrite (Permutation_middle xs).
  - etrans; [|exact IHs].
    rewrite <- (take_drop k (sys_path w)) at 1.
    apply sublist_app; [done|]. by apply sublist_cons.
Qed.

(** X5. At an index within [sys.path], [add_to_sys_path] puts the roots
    between the entries before the index and those from the index on, in the
    order given. *)
Theorem add_to_sys_path_within (pathnames : list string) (index : Z) (w : world) :
  0 ≤ index ≤ Z.of_nat (length (sys_path w)) →
  sys_path (add_to_sys_path pathnames index w).2
  = take (Z.to_nat index) (sys_path w) ++ pathnames
    ++ drop (Z.to_nat index) (sys_path w).
Proof. intros Hi. by apply add_to_sys_path_at. Qed.

Lemma add_to_sys_path_within_witness :
  sys_path (add_to_sys_path ["a"; "b"]%string 1 Example.w_neutered).2
  = take 1 (sys_path Example.w_neutered) ++ ["a"; "b"]%string
    ++ drop 1 (sys_path Example.w_neutered).
Proof. apply (add_to_sys_path_within ["a"; "b"]%string 1 Example.w_neutered). simpl. lia. Defined.

(** X6. At an index that [list.insert] takes and that lies beyond the end
    of what [sys.path] will hold, [add_to_sys_path] appends the roots in
    reverse order: the last root of the list comes first. *)
Theorem add_to_sys_path_beyond (pathnames : list string) (index : Z) (w : world) :
  fits_index index →
  Z.of_nat (length (sys_path w) + length pathnames) ≤ index →
  sys_path (add_to_sys_path pathnames index w).2 = sys_path w ++ reverse pathnames.
Proof.
  intros _ Hi. unfold add_to_sys_path. apply sys_path_inserts_beyond.
  by rewrite length_reverse.
Qed.

Lemma add_to_sys_path_beyond_witness :
  sys_path (add_to_sys_path ["a"; "b"]%string 100 Example.w0).2
  = sys_path Example.w0 ++ reverse ["a"; "b"]%string.
Proof.
  apply (add_to_sys_path_beyond ["a"; "b"]%string 100 Example.w0).
  - unfold fits_index. lia.
  - simpl. lia.
Defined.

(** X7. At a negative index that reaches no further back than the start of
    [sys.path], [add_to_sys_path] puts the roots in front of the last
    [-index] entries, in reverse order. *)
Theorem add_to_sys_path_from_end (pathnames : list string) (index : Z) (w : world) :
  index < 0 → - index ≤ Z.of_nat (length (sys_path w)) →
  sys_path (add_to_sys_path pathnames index w).2
  = take (length (sys_path w) - Z.to_nat (- index)) (sys_path w)
    ++ reverse pathnames
    ++ drop (length (sys_path w) - Z.to_nat (- index)) (sys_path w).
Proof. intros Hneg Hi. unfold add_to_sys_path. by apply sys_path_inserts_negative. Qed.

Lemma add_to_sys_path_from_end_witness :
  sys_path (add_to_sys_path ["a"; "b"]%string (-1) Example.w0).2
  = take (length (sys_path Example.w0) - Z.to_nat (- (-1))) (sys_path Example.w0)
    ++ reverse ["a"; "b"]%string
    ++ drop (length (sys_path Example.w0) - Z.to_nat (- (-1))) (sys_path Example.w0).
Proof.
  apply (add_to_sys_path_from_end ["a"; "b"]%string (-1) Example.w0); simpl; lia.
Defined.

(** X8. At whatever index [list.insert] takes, negative, within [sys.path]
    or beyond its end, [add_to_sys_path] returns, adds each root once and
    removes nothing: the new [sys.path] is a permutation of the roots and
    the old entries, and the old entries keep their order in it. *)
Theorem add_to_sys_path_keeps_entries (pathnames : list string) (index : Z) (w : world) :
  fits_index index →
  (add_to_sys_path pathnames index w).1 = Ok tt
  ∧ sys_path (add_to_sys_path pathnames index w).2 ≡ₚ pathnames ++ sys_path w
  ∧ sublist (sys_path w) (sys_path (add_to_sys_path pathnames index w).2).
Proof.
  intros _. unfold add_to_sys_path. split; [apply sys_path_inserts_ok|].
  destruct (sys_path_inserts_keep (reverse pathnames) index w) as [Hp Hs].
  split; [|done]. by rewrite Hp, reverse_Permutation.
Qed.

Lemma add_to_sys_path_keeps_entries_witness :
  (add_to_sys_path ["a"; "b"]%string (-7) Example.w0).1 = Ok tt
  ∧ sys_path (add_to_sys_path ["a"; "b"]%string (-7) Example.w0).2
    ≡ₚ ["a"; "b"]%string ++ sys_path Example.w0
  ∧ sublist (sys_path Example.w0)
      (sys_path (add_to_sys_path ["a"; "b"]%string (-7) Example.w0).2).
Proof.
  apply (add_to_sys_path_keeps_entries ["a"; "b"]%string (-7) Example.w0).
  unfold fits_index. lia.
Defined.

(** ** What calls on observers leave alone *)

(** An invariant that does not look at the trace survives everything that
    only makes calls on observers. *)
Section Frame.

Variable I : world → Prop.
Hypothesis I_trace : ∀ w e, I w → I (add_trace e w).

Variable load_class : list string → string → result pyclass.
Variable observer_raises : event → option exn.

Lemma frame_same {A : Type} (c : M A) : (∀ w, (c w).2 = w) → hoare I c I.
Proof. intros Hc w Hw. by rewrite Hc. Qed.

Lemma frame_emit (e : event) : hoare I (emit e) I.
Proof. intros w Hw. by apply I_trace. Qed.

Lemma frame_observer_call (e : event) : hoare I (observer_call observer_raises e) I.
Proof.
  unfold observer_call. apply hoare_bind; [apply frame_emit|]. intros _.
  destruct (observer_raises e); by apply frame_same.
Qed.

Lemma frame_schedule_tricks o tricks pathname r :
  hoare I (schedule_tricks load_class observer_raises o tricks pathname r) I.
Proof.
  apply hoare_for_each. intros t. apply hoare_for_each. intros [name value].
  unfold schedule_trick.
  apply hoare_bind; [by apply frame_same|]. intros w.
  apply hoare_bind; [by apply frame_same|]. intros C.
  apply hoare_bind; [by apply frame_same|]. intros h.
  apply frame_observer_call.
Qed.

Lemma frame_add_to_sys_path pathnames index :
  (∀ w p, I w → I (set_sys_path p w)) →
  hoare I (add_to_sys_path pathnames index) I.
Proof.
  intros I_path. apply hoare_for_each. intros p w Hw. simpl.
  by apply I_trace, I_path.
Qed.

Lemma frame_deliver signum :
  (∀ w t, I w → I (set_signal_table t w)) → hoare I (deliver signum) I.
Proof.
  intros I_table w Hw. unfold deliver. rewrite bind_unfold. simpl.
  destruct (signal_table w !! signum) as [[]|]; try done.
  unfold handler_termination_signal. rewrite bind_unfold, neuter_spec. simpl.
  by apply I_table.
Qed.

Lemma frame_poll_loop (on_event : M unit) (pending : list (list arrival)) :
  (∀ w t, I w → I (set_signal_table t w)) →
  hoare I on_event I → hoare I (poll_loop on_event pending) I.
Proof.
  intros I_table Hon. induction pending as [|arrived pending IH]; simpl; [by apply frame_same|].
  apply hoare_bind; [|done]. unfold sleep.
  apply hoare_bind; [apply frame_emit|]. intros _.
  apply hoare_for_each. intros [signum|]; [by apply frame_deliver|done].
Qed.

End Frame.

Section SchedulingMore.

Variable load_class : list string → string → result pyclass.
Variable observer_raises : event → option exn.

Abbreviation schedule_trick := (schedule_trick load_class observer_raises).
Abbreviation schedule_tricks := (schedule_tricks load_class observer_raises).

(** X10. Registering the entries of two lists one list after the other is
    the same as registering their concatenation. *)
Theorem schedule_tricks_app o (tricks1 tricks2 : list trick) pathname r (w : world) :
  schedule_tricks o (tricks1 ++ tricks2) pathname r w
  = (schedule_tricks o tricks1 pathname r ;; schedule_tricks o tricks2 pathname r) w.
Proof.
  unfold schedule_tricks. rewrite for_each_app, bind_unfold.
  by destruct (for_each tricks1 _ w) as [[[]|e|h] w1].
Qed.

Lemma schedule_items_accepted o pathname r items hs w :
  Forall2 (λ item h, build_handler load_class (sys_path w) item = Ok h
                     ∧ observer_raises (watch_event o pathname r h) = None) items hs →
  for_each items (schedule_trick o pathname r) w
  = (Ok tt, set_trace (trace w ++ (watch_event o pathname r <$> hs)) w).
Proof.
  intros HF. revert w HF.
  induction items as [|item items IH] in hs |- *; intros w HF.
  - apply Forall2_nil_inv_l in HF as ->. destruct w; simpl. by rewrite app_nil_r.
  - apply Forall2_cons_inv_l in HF as (h & hs' & [Hb Hr] & HF & ->).
    cbn [for_each]. rewrite bind_unfold.
    destruct item as [name value]. unfold build_handler in Hb. simpl in Hb.
    unfold schedule_trick at 1. rewrite bind_unfold. cbn [get].
    rewrite bind_unfold. unfold lift at 1.
    destruct (load_class (sys_path w) name) as [C|e|x]; [|done..].
    rewrite bind_unfold. unfold lift at 1. rewrite Hb.
    unfold observer_call. rewrite bind_unfold. cbn [emit modify].
    rewrite trick_pathname_spec, Hr. cbn [ret].
    rewrite (IH hs') by done. simpl. by rewrite <- app_assoc.
Qed.

(** X11. When the observer refuses a registration, [schedule_tricks] raises
    what [schedule] raised: the registrations made before stay, the refused
    call is the last one made, and no handler after it is constructed. *)
Theorem schedule_tricks_stops_at_refusal o (tricks : list trick) pre bad post hs h e
    pathname r (w : world) :
  concat tricks = pre ++ bad :: post →
  Forall2 (λ item h, build_handler load_class (sys_path w) item = Ok h
                     ∧ observer_raises (watch_event o pathname r h) = None) pre hs →
  build_handler load_class (sys_path w) bad = Ok h →
  observer_raises (watch_event o pathname r h) = Some e →
  schedule_tricks o tricks pathname r w
  = (Raise e, set_trace (trace w ++ (watch_event o pathname r <$> hs)
                         ++ [watch_event o pathname r h]) w).
Proof.
  intros Hc HF Hb Hr.
  rewrite schedule_tricks_concat, Hc, for_each_app, (schedule_items_accepted _ _ _ _ hs)
    by done.
  cbn [for_each]. rewrite bind_unfold.
  destruct bad as [name value]. unfold build_handler in Hb. simpl in Hb.
  unfold schedule_trick at 1. rewrite bind_unfold. cbn [get].
  rewrite bind_unfold. unfold lift at 1. cbn [sys_path set_trace].
  destruct (load_class (sys_path w) name) as [C|e'|x]; [|done..].
  rewrite bind_unfold. unfold lift at 1. rewrite Hb.
  unfold observer_call. rewrite bind_unfold. cbn [emit modify].
  rewrite trick_pathname_spec, Hr. cbn [raise].
  unfold add_trace, set_trace. simpl. by rewrite <- app_assoc.
Qed.

End SchedulingMore.

Lemma schedule_tricks_stops_at_refusal_witness :
  schedule_tricks Example.load_class Example.refuses_mover 0
    [[Example.logger]; [Example.mover]; [Example.blank]] "." true Example.w0
  = (Raise (Exception "OSError"),
     set_trace (trace Example.w0
                ++ (watch_event 0 "." true <$> [Example.logger_handler])
                ++ [watch_event 0 "." true Example.mover_handler]) Example.w0).
Proof.
  apply (schedule_tricks_stops_at_refusal Example.load_class Example.refuses_mover 0
           [[Example.logger]; [Example.mover]; [Example.blank]]
           [Example.logger] Example.mover [Example.blank]
           [Example.logger_handler] Example.mover_handler (Exception "OSError")
           "." true Example.w0).
  - vm_compute; reflexivity.
  - repeat constructor.
  - vm_compute; reflexivity.
  - vm_compute; reflexivity.
Defined.

(** ** [observe_with] *)

Lemma for_each_fmap {A B : Type} (f : A → B) (xs : list A) (body : B → M unit) (w : world) :
  for_each (f <$> xs) body w = for_each xs (λ x, body (f x)) w.
Proof.
  revert w. induction xs as [|x xs IH]; intros w; [done|]. simpl.
  rewrite !bind_unfold. destruct (body (f x) w) as [[[]|e|h] w1]; [apply IH|done..].
Qed.

Lemma steady_events (on_event : M unit) (arrived : list arrival) (w : world) :
  steady on_event → Forall (λ a, a = FsEvent) arrived →
  ∃ w' added,
    for_each arrived (λ a, match a with Signal signum => deliver signum
                                      | FsEvent => on_event end) w = (Ok tt, w')
    ∧ signal_table w' = signal_table w
    ∧ trace w' = trace w ++ added
    ∧ Forall (λ e, is_observer_event e = false) added.
Proof.
  intros Hon Ha. revert w. induction Ha as [|a arrived -> _ IH]; intros w.
  - exists w, []. by rewrite app_nil_r.
  - destruct (Hon w) as (w1 & l1 & Hrun & Ht & Htr & Hq).
    destruct (IH w1) as (w2 & l2 & Hrun2 & Ht2 & Htr2 & Hq2).
    exists w2, (l1 ++ l2). cbn [for_each]. rewrite bind_unfold, Hrun, Hrun2.
    split; [done|]. split; [congruence|]. split; [|by apply Forall_app].
    by rewrite Htr2, Htr, <- app_assoc.
Qed.

Lemma poll_loop_first_signal (on_event : M unit) pre evs signum rest post (w : world) :
  steady on_event →
  Forall (Forall (λ a, a = FsEvent)) pre →
  Forall (λ a, a = FsEvent) evs →
  ∃ w1 added,
    signal_table w1 = signal_table w
    ∧ trace w1 = trace w ++ added
    ∧ Forall (λ e, is_observer_event e = false) added
    ∧ ∀ e w2, deliver signum w1 = (Raise e, w2) →
              poll_loop on_event (pre ++ (evs ++ Signal signum :: rest) :: post) w
              = (Raise e, w2).
Proof.
  intros Hon Hpre Hevs. revert w. induction Hpre as [|tick pre Htick _ IH]; intros w.
  - destruct (steady_events on_event evs (add_trace ESleep w) Hon Hevs)
      as (w1 & l & Hrun & Ht & Htr & Hq).
    exists w1, (ESleep :: l). split; [done|].
    split; [rewrite Htr; simpl; by rewrite <- app_assoc|]. split; [by constructor|].
    intros e w2 Hd. cbn [app poll_loop]. rewrite bind_unfold. unfold sleep.
    rewrite bind_unfold. cbn [emit modify]. rewrite for_each_app, Hrun.
    cbn [for_each]. by rewrite bind_unfold, Hd.
  - destruct (steady_events on_event tick (add_trace ESleep w) Hon Htick)
      as (w1 & l & Hrun & Ht & Htr & Hq).
    destruct (IH w1) as (w2 & l2 & Ht2 & Htr2 & Hq2 & Hloop).
    exists w2, (ESleep :: l ++ l2). split; [by rewrite Ht2, Ht|].
    split; [rewrite Htr2, Htr; simpl; by rewrite <- !app_assoc|].
    split; [constructor; [done|by apply Forall_app]|].
    intros e w3 Hd. cbn [app poll_loop]. rewrite bind_unfold. unfold sleep at 1.
    rewrite bind_unfold. cbn [emit modify]. rewrite Hrun. by apply Hloop.
Qed.


Section Observing.

Variable observer_raises : event → option exn.
Variable arrivals : list (list arrival).
Variable set_order : list string → list string.

Abbreviation observe_with := (observe_with observer_raises arrivals set_order).

Lemma observe_with_started o h (on_event : M unit) pathnames r (w : world) :
  (∀ e, observer_raises e = None) →
  observe_with o h on_event pathnames r w
  = (try_except_shutdown (poll_loop on_event arrivals)
       (observer_call observer_raises (EStop o)) ;;
     observer_call observer_raises (EJoin o))
      (set_trace (trace w ++ ((λ p, ESchedule o h (PyStr p) r) <$> set_order pathnames)
                  ++ [EStart o]) w).
Proof.
  intros Hok. unfold observe_with. rewrite bind_unfold.
  rewrite <- (for_each_fmap (λ p, ESchedule o h (PyStr p) r)).
  rewrite calls_ok by (apply Forall_forall; eauto).
  rewrite bind_unfold. unfold observer_call at 1. rewrite bind_unfold. cbn [emit modify].
  rewrite Hok. cbn [ret]. unfold add_trace, set_trace. simpl. by rewrite <- app_assoc.
Qed.

Lemma observe_with_cancelled_run o h (on_event : M unit) pathnames r
    pre evs signum rest post (w : world) :
  orders_sets set_order →
  (∀ e, observer_raises e = None) →
  steady on_event →
  arrivals = pre ++ (evs ++ Signal signum :: rest) :: post →
  Forall (Forall (λ a, a = FsEvent)) pre →
  Forall (λ a, a = FsEvent) evs →
  signal_table w !! signum = Some Handler_termination_signal →
  ∃ w' added,
    observe_with o h on_event pathnames r w = (Ok tt, w')
    ∧ trace w' = trace w ++ ((λ p, ESchedule o h (PyStr p) r) <$> set_order pathnames)
                 ++ EStart o :: added ++ [EStop o; EJoin o]
    ∧ Forall (λ e, is_observer_event e = false) added
    ∧ NoDup (set_order pathnames)
    ∧ (∀ p, p ∈ set_order pathnames ↔ p ∈ pathnames)
    ∧ (∀ s, s ∈ termination_signals → signal_table w' !! s = Some SIG_IGN).
Proof.
  intros Horder Hok Hon Harr Hpre Hevs Hsig.
  rewrite observe_with_started by done. rewrite Harr.
  match goal with |- context [bind _ _ ?w0] => set (w0' := w0) end.
  destruct (poll_loop_first_signal on_event pre evs signum rest post w0' Hon Hpre Hevs)
    as (w1 & added & Ht & Htr & Hq & Hloop).
  assert (signal_table w1 !! signum = Some Handler_termination_signal) as Hsig1
    by (rewrite Ht; exact Hsig).
  specialize (Hloop _ _ (deliver_handled signum w1 Hsig1)).
  rewrite bind_unfold. unfold try_except_shutdown. rewrite Hloop.
  unfold observer_call. rewrite !bind_unfold. cbn [emit modify]. rewrite !Hok.
  cbn [ret]. eexists _, added. split; [done|].
  split; [simpl; rewrite Htr; simpl; by rewrite <- !app_assoc|].
  split; [done|]. destruct (Horder pathnames) as [Hnd Hin].
  split; [done|]. split; [done|].
  intros s Hs. simpl. rewrite lookup_foldl_insert.
  by rewrite decide_True by (by apply elem_of_elements).
Qed.

(** X12. With a handler that keeps to itself and an observer whose calls all
    return, [observe_with] schedules the handler once for each distinct
    pathname, in the order in which the set of the pathnames yields them,
    and starts the observer; when the first signal to arrive is
    one for which the termination handler is installed, it then stops the
    observer, joins it and returns, with the termination signals ignored
    from then on. *)
Theorem observe_with_cancelled o h (on_event : M unit) pathnames r
    pre evs signum rest post (w : world) :
  orders_sets set_order →
  (∀ e, observer_raises e = None) →
  steady on_event →
  arrivals = pre ++ (evs ++ Signal signum :: rest) :: post →
  Forall (Forall (λ a, a = FsEvent)) pre →
  Forall (λ a, a = FsEvent) evs →
  signal_table w !! signum = Some Handler_termination_signal →
  ∃ w' added,
    observe_with o h on_event pathnames r w = (Ok tt, w')
    ∧ trace w' = trace w ++ ((λ p, ESchedule o h (PyStr p) r) <$> set_order pathnames)
                 ++ EStart o :: added ++ [EStop o; EJoin o]
    ∧ Forall (λ e, is_observer_event e = false) added
    ∧ NoDup (set_order pathnames)
    ∧ (∀ p, p ∈ set_order pathnames ↔ p ∈ pathnames)
    ∧ (∀ s, s ∈ termination_signals → signal_table w' !! s = Some SIG_IGN).
Proof. apply observe_with_cancelled_run. Qed.

(** X13. With a handler that keeps to itself and an observer whose calls all
    return, when the first signal to arrive is a SIGINT left to the handler
    of the interpreter, [observe_with] raises [KeyboardInterrupt]: it has
    scheduled the handler for the pathnames the set yields, in whatever
    order it yields them, and started the observer, and it calls neither
    [stop] nor [join] on it. *)
Theorem observe_with_interrupted o h (on_event : M unit) pathnames r
    pre evs signum rest post (w : world) :
  (∀ e, observer_raises e = None) →
  steady on_event →
  arrivals = pre ++ (evs ++ Signal signum :: rest) :: post →
  Forall (Forall (λ a, a = FsEvent)) pre →
  Forall (λ a, a = FsEvent) evs →
  signal_table w !! signum = Some Default_int_handler →
  ∃ w' added,
    observe_with o h on_event pathnames r w = (Raise KeyboardInterrupt, w')
    ∧ trace w' = trace w ++ ((λ p, ESchedule o h (PyStr p) r) <$> set_order pathnames)
                 ++ EStart o :: added
    ∧ Forall (λ e, is_observer_event e = false) added.
Proof.
  intros Hok Hon Harr Hpre Hevs Hsig.
  rewrite observe_with_started by done. rewrite Harr.
  match goal with |- context [bind _ _ ?w0] => set (w0' := w0) end.
  destruct (poll_loop_first_signal on_event pre evs signum rest post w0' Hon Hpre Hevs)
    as (w1 & added & Ht & Htr & Hq & Hloop).
  assert (deliver signum w1 = (Raise KeyboardInterrupt, w1)) as Hd.
  { assert (signal_table w1 = signal_table w) as Ht' by (by rewrite Ht).
    unfold deliver. rewrite bind_unfold. simpl. by rewrite Ht', Hsig. }
  specialize (Hloop _ _ Hd).
  rewrite bind_unfold. unfold try_except_shutdown. rewrite Hloop.
  exists w1, added. split; [done|]. split; [|done].
  rewrite Htr. simpl. by rewrite <- !app_assoc.
Qed.

End Observing.

Lemma steady_ret : steady (ret tt).
Proof. intros w. exists w, []. by rewrite app_nil_r. Qed.

Lemma set_order_orders_sets : orders_sets Example.set_order.
Proof.
  intros pathnames. unfold Example.set_order. split.
  - rewrite reverse_Permutation. apply NoDup_elements.
  - intros p. by rewrite elem_of_reverse, elem_of_elements, elem_of_list_to_set.
Qed.

Lemma observe_with_cancelled_witness :
  ∃ w', observe_with Example.never_raises Example.event_then_sigint Example.set_order
          0 Example.logger_handler (ret tt) ["src"; "."; "src"]%string true
          Example.w_installed = (Ok tt, w').
Proof.
  destruct (observe_with_cancelled Example.never_raises Example.event_then_sigint
              Example.set_order 0
              Example.logger_handler (ret tt) ["src"; "."; "src"]%string true
              [[]] [FsEvent] SIGINT [FsEvent] [[FsEvent]] Example.w_installed)
    as (w' & added & Hrun & _).
  - apply set_order_orders_sets.
  - done.
  - apply steady_ret.
  - reflexivity.
  - repeat constructor.
  - repeat constructor.
  - vm_compute; reflexivity.
  - exists w'. exact Hrun.
Defined.

Lemma observe_with_interrupted_witness :
  ∃ w', observe_with Example.never_raises Example.event_then_sigint Example.set_order
          0 Example.logger_handler (ret tt) ["src"; "."; "src"]%string true
          Example.w_default = (Raise KeyboardInterrupt, w').
Proof.
  destruct (observe_with_interrupted Example.never_raises Example.event_then_sigint
              Example.set_order 0
              Example.logger_handler (ret tt) ["src"; "."; "src"]%string true
              [[]] [FsEvent] SIGINT [FsEvent] [[FsEvent]] Example.w_default)
    as (w' & added & Hrun & _).
  - done.
  - apply steady_ret.
  - reflexivity.
  - repeat constructor.
  - repeat constructor.
  - vm_compute; reflexivity.
  - exists w'. exact Hrun.
Defined.

(** ** More on [tricks_from] *)

Section FrameSetup.

Variable I : world → Prop.
Hypothesis I_trace : ∀ w e, I w → I (add_trace e w).
Hypothesis I_path : ∀ w p, I w → I (set_sys_path p w).
Hypothesis I_next : ∀ w n, I w → I (set_next_observer n w).

Variable load_class : list string → string → result pyclass.
Variable observer_raises : event → option exn.
Variable filesystem : gmap string (result config).
Variable os_path_dirname : string → string.

Lemma frame_new_observer cls : hoare I (new_observer observer_raises cls) I.
Proof.
  unfold new_observer. apply hoare_bind; [by apply frame_same|]. intros w.
  apply hoare_bind; [intros w' Hw'; by apply I_next|]. intros _.
  apply hoare_bind; [by apply frame_observer_call|]. intros _. by apply frame_same.
Qed.

Lemma frame_start_observer cls r f :
  hoare I (start_observer load_class observer_raises filesystem os_path_dirname cls r f) I.
Proof.
  unfold start_observer. apply hoare_bind; [apply frame_new_observer|]. intros o.
  destruct (filesystem !! f) as [loaded|]; [|by apply frame_same].
  apply hoare_bind; [by apply frame_same|]. intros cfg.
  apply hoare_bind; [destruct (cfg_tricks cfg); by apply frame_same|]. intros tricks.
  apply hoare_bind.
  { destruct (cfg_python_path cfg); [by apply frame_add_to_sys_path|by apply frame_same]. }
  intros _. apply hoare_bind; [by apply frame_schedule_tricks|]. intros _.
  apply hoare_bind; [by apply frame_observer_call|]. intros _. by apply frame_same.
Qed.

Lemma frame_start_observers cls r fs acc :
  hoare I (start_observers load_class observer_raises filesystem os_path_dirname
             cls r fs acc) I.
Proof.
  revert acc. induction fs as [|f fs IH]; intros acc; simpl; [by apply frame_same|].
  apply hoare_bind; [apply frame_start_observer|]. intros o. apply IH.
Qed.

End FrameSetup.

Section TricksMore.

Variable load_class : list string → string → result pyclass.
Variable observer_raises : event → option exn.
Variable filesystem : gmap string (result config).
Variable os_pathsep : ascii.
Variable os_path_dirname : string → string.
Variable arrivals : list (list arrival).

Abbreviation start_observer :=
  (start_observer load_class observer_raises filesystem os_path_dirname).
Abbreviation start_observers :=
  (start_observers load_class observer_raises filesystem os_path_dirname).
Abbreviation run_observers := (run_observers observer_raises arrivals).
Abbreviation tricks_from :=
  (tricks_from load_class observer_raises filesystem os_pathsep os_path_dirname arrivals).

(** The setup of [tricks_from]: the startup roots, then the loop over the
    files. *)
Abbreviation setup args files :=
  (add_to_sys_path (path_split (python_path args) os_pathsep) 0 ;;
   start_observers (select_observer args) (recursive args) files []).

Lemma tricks_from_after_setup args pre f post obs (w w1 : world) :
  files args = pre ++ f :: post →
  setup args pre w = (Ok obs, w1) →
  tricks_from args w
  = match start_observer (select_observer args) (recursive args) f w1 with
    | (Ok o, w2) =>
        (observers <- start_observers (select_observer args) (recursive args) post
                        (obs ++ [o]) ;;
         run_observers observers) w2
    | (Raise e, w2) => (Raise e, w2)
    | (Halt h, w2) => (Halt h, w2)
    end.
Proof.
  intros Hfiles Hpre. apply bind_Ok_inv in Hpre as ([] & w0 & Hadd & Hpre).
  unfold tricks_from. rewrite bind_unfold, Hadd, bind_unfold, Hfiles.
  rewrite start_observers_app, Hpre. cbn [start_observers]. rewrite bind_unfold.
  destruct (start_observer _ _ f w1) as [[o|e|h] w2]; [|done..].
  by rewrite bind_unfold.
Qed.


(** X15. When a configuration file has no [tricks] key, [tricks_from] raises
    [KeyError] naming the key and the file, before it looks at the
    [python-path] key: the search roots of that file are not added, and its
    observer is created but not started. *)
Theorem tricks_from_missing_key args pre f post obs cfg (w w1 : world) :
  files args = pre ++ f :: post →
  setup args pre w = (Ok obs, w1) →
  filesystem !! f = Some (Ok cfg) →
  cfg_tricks cfg = None →
  observer_raises (ENewObserver (next_observer w1) (select_observer args)) = None →
  tricks_from args w
  = (Raise (KeyError CONFIG_KEY_TRICKS f),
     add_trace (ENewObserver (next_observer w1) (select_observer args))
       (set_next_observer (S (next_observer w1)) w1)).
Proof.
  intros Hfiles Hpre Hfs Hkey Hnew.
  rewrite (tricks_from_after_setup _ _ _ _ _ _ _ Hfiles Hpre).
  unfold start_observer. rewrite bind_unfold, new_observer_ok by done.
  rewrite Hfs, bind_unfold. unfold lift at 1. by rewrite Hkey, bind_unfold.
Qed.

Lemma start_observer_ok_sys_path cls r f (w w' : world) (o : nat) :
  start_observer cls r f w = (Ok o, w') →
  sys_path w' = roots_of filesystem f ++ sys_path w.
Proof.
  unfold start_observer, roots_of. intros H.
  apply bind_Ok_inv in H as (o0 & wa & Hnew & H).
  assert (sys_path wa = sys_path w) as Hwa.
  { pose proof (frame_new_observer (λ w', sys_path w' = sys_path w)
                  (λ _ _ H, H) (λ _ _ H, H) observer_raises cls w eq_refl) as Hf.
    by rewrite Hnew in Hf. }
  destruct (filesystem !! f) as [loaded|]; [|done].
  apply bind_Ok_inv in H as (cfg & wb & Hlift & H).
  unfold lift in Hlift. simplify_eq.
  apply bind_Ok_inv in H as (tricks & wc & Htr & H).
  assert (wc = wb) as -> by (destruct (cfg_tricks cfg); unfold ret, raise in Htr; congruence).
  apply bind_Ok_inv in H as ([] & wd & Hpp & H).
  assert (sys_path wd = default [] (cfg_python_path cfg) ++ sys_path wb) as Hwd.
  { destruct (cfg_python_path cfg) as [roots|]; simpl.
    - rewrite add_to_sys_path_0_spec in Hpp. by simplify_eq.
    - unfold ret in Hpp. by simplify_eq. }
  apply bind_Ok_inv in H as ([] & we & Hsch & H).
  assert (sys_path we = sys_path wd) as Hwe.
  { match type of Hsch with
    | schedule_tricks _ _ ?o ?t ?p ?r _ = _ =>
        pose proof (frame_schedule_tricks (λ w', sys_path w' = sys_path wd) (λ _ _ H, H)
                      load_class observer_raises o t p r wd eq_refl) as Hf
    end.
    by rewrite Hsch in Hf. }
  apply bind_Ok_inv in H as ([] & wf & Hst & H).
  assert (sys_path wf = sys_path we) as Hwf.
  { pose proof (frame_observer_call (λ w', sys_path w' = sys_path we) (λ _ _ H, H)
                  observer_raises (EStart o0) we eq_refl) as Hf.
    by rewrite Hst in Hf. }
  unfold ret in H. simplify_eq. by rewrite Hwf, Hwe, Hwd, Hwa.
Qed.

Lemma start_observers_ok_sys_path cls r fs acc (w w' : world) (obs : list nat) :
  start_observers cls r fs acc w = (Ok obs, w') →
  sys_path w' = (reverse fs ≫= roots_of filesystem) ++ sys_path w.
Proof.
  revert acc w. induction fs as [|f fs IH]; intros acc w H; simpl in H.
  - unfold ret in H. by simplify_eq.
  - apply bind_Ok_inv in H as (o & w1 & Ho & H).
    apply IH in H. apply start_observer_ok_sys_path in Ho.
    rewrite H, Ho, reverse_cons, bind_app. simpl. by rewrite app_nil_r, <- app_assoc.
Qed.

Lemma frame_run_observers (I : world → Prop) (observers : list nat) :
  (∀ w e, I w → I (add_trace e w)) →
  (∀ w t, I w → I (set_signal_table t w)) →
  hoare I (run_observers observers) I.
Proof.
  intros I_trace I_table. unfold run_observers. apply hoare_bind.
  - apply hoare_try_except.
    + apply frame_poll_loop; [done..|]. by apply frame_same.
    + apply hoare_for_each. intros o.
      apply hoare_bind; [|intros _]; by apply frame_observer_call.
  - intros _. apply hoare_for_each. intros o. by apply frame_observer_call.
Qed.

Lemma tricks_from_set_up args obs (w w1 : world) :
  setup args (files args) w = (Ok obs, w1) →
  tricks_from args w = run_observers obs w1.
Proof.
  intros Hs. apply bind_Ok_inv in Hs as ([] & w0 & Hadd & Hs).
  unfold tricks_from. by rewrite bind_unfold, Hadd, bind_unfold, Hs.
Qed.

(** X16. When the setup of [tricks_from] succeeds, [sys.path] holds from
    then on, first the extra roots of the configuration files, those of the
    file given last in front, then the roots given at startup, then what it
    held before. *)
Theorem tricks_from_sys_path args obs (w w1 : world) :
  setup args (files args) w = (Ok obs, w1) →
  sys_path (tricks_from args w).2
  = (reverse (files args) ≫= roots_of filesystem)
    ++ path_split (python_path args) os_pathsep ++ sys_path w.
Proof.
  intros Hs. rewrite (tricks_from_set_up _ _ _ _ Hs).
  apply bind_Ok_inv in Hs as ([] & w0 & Hadd & Hs).
  rewrite add_to_sys_path_0_spec in Hadd. simplify_eq.
  apply start_observers_ok_sys_path in Hs. simpl in Hs. rewrite <- Hs.
  by apply (frame_run_observers (λ w', sys_path w' = sys_path w1)).
Qed.

Lemma setup_signal_table args fs obs (w w1 : world) :
  setup args fs w = (Ok obs, w1) → signal_table w1 = signal_table w.
Proof.
  intros Hs.
  assert (hoare (λ w', signal_table w' = signal_table w) (setup args fs)
            (λ w', signal_table w' = signal_table w)) as Hf.
  { apply hoare_bind; [by apply frame_add_to_sys_path|]. intros _.
    by apply frame_start_observers. }
  specialize (Hf w eq_refl). by rewrite Hs in Hf.
Qed.


(** X18. When a termination handler is installed for it, the first signal
    to arrive after a successful setup makes [tricks_from] call
    [unschedule_all] and [stop] on every observer and then [join] on every
    observer, in the order in which it started them, one observer for each
    configuration file, and return, provided these calls return. *)
Theorem tricks_from_cancelled args obs pre evs signum rest post (w w1 : world) :
  setup args (files args) w = (Ok obs, w1) →
  arrivals = pre ++ (evs ++ Signal signum :: rest) :: post →
  Forall (Forall (λ a, a = FsEvent)) pre →
  Forall (λ a, a = FsEvent) evs →
  signal_table w !! signum = Some Handler_termination_signal →
  Forall (λ c, observer_raises c = None) (teardown_calls obs) →
  ∃ w' added,
    tricks_from args w = (Ok tt, w')
    ∧ trace w' = trace w1 ++ added ++ teardown_calls obs
    ∧ Forall (λ e, is_observer_event e = false) added
    ∧ started (trace w1) = started (trace w) ++ obs
    ∧ length obs = length (files args).
Proof.
  intros Hs Harr Hpre Hevs Hsig Hcalls. rewrite (tricks_from_set_up _ _ _ _ Hs).
  pose proof (setup_signal_table _ _ _ _ _ Hs) as Htable.
  destruct (poll_loop_first_signal (ret tt) pre evs signum rest post w1 steady_ret Hpre Hevs)
    as (w2 & added & Ht & Htr & Hq & Hloop).
  assert (signal_table w2 !! signum = Some Handler_termination_signal) as Hsig2
    by (by rewrite Ht, Htable).
  specialize (Hloop _ _ (deliver_handled signum w2 Hsig2)). rewrite <- Harr in Hloop.
  rewrite (run_observers_calls _ _ _ _ _ Hloop), calls_ok by done.
  eexists _, added. split; [done|]. split; [simpl; by rewrite Htr, <- app_assoc|].
  split; [done|].
  apply bind_Ok_inv in Hs as ([] & w0 & Hadd & Hs).
  destruct (emits_add_to_sys_path (path_split (python_path args) os_pathsep) 0 w)
    as (l0 & Hl0 & Hq0). rewrite Hadd in Hl0. simpl in Hl0.
  apply start_observers_ok_started in Hs as (new & Hobs & Hlen & Hst).
  simpl in Hobs. subst new. split; [|done].
  by rewrite Hst, Hl0, started_app, (started_quiet l0), app_nil_r.
Qed.

End TricksMore.

(** ** More on [tricks_from], on explicit inputs *)


Lemma tricks_from_missing_key_witness :
  ∃ w', tricks_from Example.load_class Example.never_raises Example.filesystem2
          ":" Example.dirname Example.one_sigterm
          (Example.args ["good.yaml"; "keyless.yaml"]%string) Example.w0
        = (Raise (KeyError CONFIG_KEY_TRICKS "keyless.yaml"), w')
        ∧ sys_path w' = ["."; "/usr/lib/python"]%string.
Proof.
  eexists. split.
  - eapply tricks_from_missing_key
      with (pre := ["good.yaml"%string]) (f := "keyless.yaml"%string) (post := [])
           (cfg := Example.keyless_config).
    + vm_compute; reflexivity.
    + vm_compute; reflexivity.
    + vm_compute; reflexivity.
    + vm_compute; reflexivity.
    + vm_compute; reflexivity.
  - vm_compute; reflexivity.
Defined.

Lemma tricks_from_sys_path_witness :
  sys_path (tricks_from Example.load_class Example.never_raises Example.filesystem2
              ":" Example.dirname Example.one_sigterm
              (Example.args ["rooted.yaml"; "second.yaml"]%string) Example.w0).2
  = ["/srv/tricks"; "/opt/tricks"; "."; "/usr/lib/python"]%string.
Proof.
  etrans.
  - eapply tricks_from_sys_path. vm_compute; reflexivity.
  - vm_compute; reflexivity.
Defined.


Lemma tricks_from_cancelled_witness :
  ∃ w', tricks_from Example.load_class Example.never_raises Example.filesystem2
          ":" Example.dirname Example.event_then_sigint
          (Example.args ["rooted.yaml"; "second.yaml"]%string) Example.w_installed
        = (Ok tt, w').
Proof.
  edestruct (tricks_from_cancelled Example.load_class Example.never_raises
               Example.filesystem2 ":" Example.dirname Example.event_then_sigint
               (Example.args ["rooted.yaml"; "second.yaml"]%string))
    with (pre := [[] : list arrival]) (evs := [FsEvent]) (signum := SIGINT)
         (rest := [FsEvent]) (post := [[FsEvent]]) (w := Example.w_installed)
    as (w' & added & Hrun & _).
  - vm_compute; reflexivity.
  - reflexivity.
  - repeat constructor.
  - repeat constructor.
  - vm_compute; reflexivity.
  - repeat constructor.
  - exists w'. exact Hrun.
Defined.

(** ** More on [auto_restart] *)

Section AutoRestartMore.

Variable observer_raises : event → option exn.
Variable arrivals : list (list arrival).
Variable set_order : list string → list string.
Variable signal_by_name : string → option Z.
Variable py_int : string → option Z.
Variable child : nat → child_profile.

Abbreviation trick_start := (trick_start child).
Abbreviation trick_stop := (trick_stop child).
Abbreviation trick_restart := (trick_restart child).
Abbreviation auto_restart :=
  (auto_restart observer_raises arrivals set_order signal_by_name py_int child).
Abbreviation parse_stop_signal := (parse_stop_signal signal_by_name py_int).

Lemma stop_sequence_no_observer (t : AutoRestartTrick) (pid : nat) :
  Forall (λ e, is_observer_event e = false) (stop_sequence child t pid).
Proof. stop_sequence_cases child t pid; by repeat constructor. Qed.

Lemma trick_stop_result (t : AutoRestartTrick) (limit : nat) (w : world) :
  kill_after t = Seconds limit →
  ∃ added,
    trick_stop t w = (Ok tt, set_process None (set_trace (trace w ++ added) w))
    ∧ Forall (λ e, is_observer_event e = false) added.
Proof.
  intros Hk. destruct (process w) as [pid|] eqn:Hp.
  - rewrite (trick_stop_spec _ _ _ pid) by (done || by eapply seconds_complete).
    eexists. split; [done|]. apply stop_sequence_no_observer.
  - rewrite trick_stop_absent by done. exists []. split; [|done].
    destruct w; simpl in *. by rewrite app_nil_r, Hp.
Qed.

Lemma steady_trick_restart (t : AutoRestartTrick) (limit : nat) :
  kill_after t = Seconds limit →
  (∀ pid, launch_error (child pid) = None) → steady (trick_restart t).
Proof.
  intros Hk Hl w. unfold trick_restart. rewrite bind_unfold.
  destruct (trick_stop_result t limit w Hk) as (l1 & -> & Hq1).
  rewrite trick_start_spec by done. eexists _, (l1 ++ [_]).
  split; [done|]. split; [done|]. simpl. rewrite <- app_assoc. split; [done|].
  apply Forall_app. split; [done|]. by repeat constructor.
Qed.

Lemma auto_restart_parsed (args : auto_restart_args) (signum : Z) (w : world) :
  parse_stop_signal (ar_signal args) w = (Ok signum, w) →
  auto_restart args w
  = (trick_start (restart_handler args signum) ;;
     observer <- new_observer observer_raises (restart_observer args) ;;
     try_finally
       (try_except_shutdown
          (observe_with observer_raises arrivals set_order observer
             (trick_object (restart_handler args signum))
             (trick_restart (restart_handler args signum))
             (if bool_decide (ar_directories args = []) then ["."%string]
              else ar_directories args)
             (ar_recursive args))
          (ret tt))
       (trick_stop (restart_handler args signum)))
      (set_signal_table
         (foldl (λ t signum, <[signum := Handler_termination_signal]> t)
            (signal_table w) (elements termination_signals)) w).
Proof.
  intros Hparse. unfold auto_restart, restart_handler, restart_observer.
  rewrite bind_unfold, Hparse, bind_unfold, install_spec.
  by destruct (parse_patterns _ _).
Qed.

(** X19. With a stop signal that parses, a [kill_after] that is a number,
    launches that succeed and an observer whose calls return,
    [auto_restart] launches the child, creates the observer, watches each
    distinct directory (the current one when none is given), in the order
    in which the set of the directories yields them, and starts the
    observer; the first termination signal then makes it stop and join the
    observer, stop the child, and return normally, with no child left and
    the termination signals ignored. *)
Theorem auto_restart_cancelled (args : auto_restart_args) (signum : Z) (limit : nat)
    pre evs s rest post (w : world) :
  parse_stop_signal (ar_signal args) w = (Ok signum, w) →
  ar_kill_after args = Seconds limit →
  orders_sets set_order →
  (∀ e, observer_raises e = None) →
  (∀ pid, launch_error (child pid) = None) →
  process w = None →
  arrivals = pre ++ (evs ++ Signal s :: rest) :: post →
  Forall (Forall (λ a, a = FsEvent)) pre →
  Forall (λ a, a = FsEvent) evs →
  s ∈ termination_signals →
  ∃ w' during after,
    auto_restart args w = (Ok tt, w')
    ∧ trace w'
      = trace w
        ++ [EPopen (next_pid w) ([ar_command args] ++ ar_command_args args);
            ENewObserver (next_observer w) (restart_observer args)]
        ++ ((λ p, ESchedule (next_observer w) (trick_object (restart_handler args signum))
                    (PyStr p) (ar_recursive args))
              <$> set_order (restart_directories args))
        ++ EStart (next_observer w) :: during
        ++ [EStop (next_observer w); EJoin (next_observer w)] ++ after
    ∧ NoDup (set_order (restart_directories args))
    ∧ (∀ p, p ∈ set_order (restart_directories args) ↔ p ∈ restart_directories args)
    ∧ Forall (λ e, is_observer_event e = false) during
    ∧ Forall (λ e, is_observer_event e = false) after
    ∧ process w' = None
    ∧ (∀ s, s ∈ termination_signals → signal_table w' !! s = Some SIG_IGN).
Proof.
  intros Hparse Hk Horder Hok Hl Hp Harr Hpre Hevs Hs.
  rewrite (auto_restart_parsed _ signum) by done.
  rewrite bind_unfold, trick_start_spec by done.
  rewrite bind_unfold, new_observer_ok by done. cbn [next_observer next_pid
    set_signal_table set_next_pid add_trace set_trace set_process set_next_observer].
  unfold try_finally, try_except_shutdown.
  match goal with
  | |- context [observe_with _ _ _ ?o ?h ?on ?ps ?r ?w0] =>
      destruct (observe_with_cancelled_run observer_raises arrivals set_order o h on ps r
                  pre evs s rest post w0)
        as (w1 & during & Hrun & Htr & Hq & Hnd & Hin & Hign);
        [done|done|by apply (steady_trick_restart _ limit)|done|done|done| |]
  end.
  { simpl. rewrite lookup_foldl_insert.
    by rewrite decide_True by (by apply elem_of_elements). }
  rewrite Hrun.
  destruct (trick_stop_result (restart_handler args signum) limit w1 Hk)
    as (after & -> & Hq2).
  exists (set_process None (set_trace (trace w1 ++ after) w1)), during, after.
  split; [done|]. split.
  { simpl. rewrite Htr. simpl. unfold restart_directories.
    repeat (rewrite <- app_assoc; simpl). done. }
  split; [exact Hnd|]. split; [exact Hin|].
  split; [done|]. split; [done|]. split; [done|].
  intros s' Hs'. simpl. by apply Hign.
Qed.

(** X20. [auto_restart] launches the child before it creates the observer,
    outside the [try] whose [finally] stops the child: when creating the
    observer raises, the exception propagates and the child that was
    launched is left running, never sent a signal. *)
Theorem auto_restart_leaves_child (args : auto_restart_args) (signum : Z) e (w : world) :
  parse_stop_signal (ar_signal args) w = (Ok signum, w) →
  process w = None →
  launch_error (child (next_pid w)) = None →
  observer_raises (ENewObserver (next_observer w) (restart_observer args)) = Some e →
  ∃ w',
    auto_restart args w = (Raise e, w')
    ∧ trace w' = trace w
                 ++ [EPopen (next_pid w) ([ar_command args] ++ ar_command_args args);
                     ENewObserver (next_observer w) (restart_observer args)]
    ∧ process w' = Some (next_pid w).
Proof.
  intros Hparse Hp Hl Hnew.
  rewrite (auto_restart_parsed _ signum) by done.
  rewrite bind_unfold, trick_start_spec by done.
  rewrite bind_unfold. unfold new_observer. rewrite bind_unfold. cbn [get].
  rewrite bind_unfold. cbn [modify]. rewrite bind_unfold.
  unfold observer_call. rewrite bind_unfold. cbn [emit modify].
  cbn [next_observer set_signal_table set_next_pid add_trace set_trace set_process
         set_next_observer]. rewrite Hnew. cbn [raise].
  eexists. split; [done|]. simpl. by rewrite <- app_assoc.
Qed.

(** X21. When creating the observer returns and [kill_after] is a number,
    [auto_restart] leaves no child behind: unless the process is killed or
    the run is still waiting, the handler holds no child when
    [auto_restart] ends, however it ends. *)
Theorem auto_restart_stops_child (args : auto_restart_args) (limit : nat) (w : world) :
  ar_kill_after args = Seconds limit →
  process w = None →
  (∀ o cls, observer_raises (ENewObserver o cls) = None) →
  (∀ h, (auto_restart args w).1 ≠ Halt h) →
  process (auto_restart args w).2 = None.
Proof.
  intros Hk Hp Hnew.
  destruct (parse_stop_signal_pure signal_by_name py_int (ar_signal args)) as [r Hr].
  destruct r as [signum|e|h]; [|unfold auto_restart; by rewrite bind_unfold, Hr..].
  rewrite (auto_restart_parsed _ signum) by done.
  rewrite bind_unfold.
  match goal with |- context [trick_start ?t0 ?w0] => set (t := t0); set (w0' := w0) end.
  assert (kill_after t = Seconds limit) as Hkt by exact Hk.
  destruct (launch_error (child (next_pid w0'))) as [e|] eqn:Hl.
  { rewrite (trick_start_fails _ _ _ e) by done. done. }
  rewrite trick_start_spec by done.
  rewrite bind_unfold, new_observer_ok by apply Hnew.
  unfold try_finally.
  match goal with |- context [try_except_shutdown ?b ?hd ?w1] =>
    destruct (try_except_shutdown b hd w1) as [[[]|e|h] w2] end.
  - destruct (trick_stop_result t limit w2 Hkt) as (after & -> & _). done.
  - rewrite bind_unfold. destruct (trick_stop_result t limit w2 Hkt) as (after & -> & _).
    done.
  - intros Hh. by destruct (Hh h).
Qed.


(** X22. When the stop signal does not parse, [auto_restart] raises before
    it has done anything: no handler is installed and no child is
    launched.  A name starting with SIG that the [signal] module does not
    have gives [AttributeError]; any other text that is not a number gives
    [ValueError]. *)
Theorem auto_restart_bad_signal (args : auto_restart_args) (w : world) :
  (if String.prefix "SIG" (ar_signal args) then signal_by_name (ar_signal args)
   else py_int (ar_signal args)) = None →
  auto_restart args w
  = (Raise (Exception (if String.prefix "SIG" (ar_signal args)
                       then "AttributeError" else "ValueError")), w).
Proof.
  intros Hnone. unfold auto_restart, parse_stop_signal. rewrite bind_unfold.
  destruct (String.prefix "SIG" (ar_signal args)); by rewrite Hnone.
Qed.

(** X23. When the child cannot be launched, [auto_restart] raises what the
    launch raised, with the termination handler installed but no observer
    created and nothing on the trace. *)
Theorem auto_restart_launch_fails (args : auto_restart_args) (signum : Z) e (w : world) :
  parse_stop_signal (ar_signal args) w = (Ok signum, w) →
  process w = None →
  launch_error (child (next_pid w)) = Some e →
  ∃ w',
    auto_restart args w = (Raise e, w')
    ∧ trace w' = trace w
    ∧ next_observer w' = next_observer w
    ∧ process w' = None
    ∧ (∀ s, s ∈ termination_signals →
            signal_table w' !! s = Some Handler_termination_signal).
Proof.
  intros Hparse Hp Hl. rewrite (auto_restart_parsed _ signum) by done.
  rewrite bind_unfold, (trick_start_fails _ _ _ e) by done.
  eexists. split; [done|]. repeat split; try done.
  intros s Hs. simpl. rewrite lookup_foldl_insert.
  by rewrite decide_True by (by apply elem_of_elements).
Qed.

End AutoRestartMore.

(** ** More on [auto_restart], on explicit inputs *)

Lemma auto_restart_cancelled_witness :
  ∃ w', auto_restart Example.never_raises Example.event_then_sigint Example.set_order
          Example.signal_by_name Example.py_int Example.child
          Example.server_args Example.w0 = (Ok tt, w')
        ∧ process w' = None.
Proof.
  edestruct (auto_restart_cancelled Example.never_raises Example.event_then_sigint
               Example.set_order Example.signal_by_name Example.py_int Example.child
               Example.server_args SIGTERM 5)
    with (pre := [[] : list arrival]) (evs := [FsEvent]) (s := SIGINT)
         (rest := [FsEvent]) (post := [[FsEvent]]) (w := Example.w0)
    as (w' & during & after & Hrun & _ & _ & _ & _ & _ & Hprocess & _).
  - vm_compute; reflexivity.
  - reflexivity.
  - apply set_order_orders_sets.
  - done.
  - done.
  - reflexivity.
  - reflexivity.
  - repeat constructor.
  - repeat constructor.
  - vm_compute. set_solver.
  - exists w'. split; [exact Hrun|exact Hprocess].
Defined.

Lemma auto_restart_leaves_child_witness :
  ∃ w', auto_restart Example.no_observer Example.event_then_sigint Example.set_order
          Example.signal_by_name Example.py_int Example.child
          Example.server_args Example.w0 = (Raise (Exception "OSError"), w')
        ∧ process w' = Some 0%nat.
Proof.
  edestruct (auto_restart_leaves_child Example.no_observer Example.event_then_sigint
               Example.set_order Example.signal_by_name Example.py_int Example.child
               Example.server_args SIGTERM (Exception "OSError") Example.w0)
    as (w' & Hrun & _ & Hprocess).
  - vm_compute; reflexivity.
  - reflexivity.
  - reflexivity.
  - reflexivity.
  - exists w'. split; [exact Hrun|exact Hprocess].
Defined.

Lemma auto_restart_stops_child_witness :
  process (auto_restart Example.never_raises Example.two_events_then_sigint
             Example.set_order Example.signal_by_name Example.py_int Example.child
             Example.server_args Example.w0).2 = None.
Proof.
  apply (auto_restart_stops_child Example.never_raises Example.two_events_then_sigint
           Example.set_order Example.signal_by_name Example.py_int Example.child
           Example.server_args 5 Example.w0).
  - reflexivity.
  - reflexivity.
  - done.
  - intros h. vm_compute. discriminate.
Defined.


Lemma auto_restart_bad_signal_witness :
  auto_restart Example.never_raises Example.two_events_then_sigint Example.set_order
    Example.signal_by_name Example.py_int Example.child
    Example.bad_signal_args Example.w0
  = (Raise (Exception "AttributeError"), Example.w0).
Proof.
  apply (auto_restart_bad_signal Example.never_raises Example.two_events_then_sigint
           Example.set_order Example.signal_by_name Example.py_int Example.child
           Example.bad_signal_args Example.w0).
  vm_compute; reflexivity.
Defined.

Lemma auto_restart_launch_fails_witness :
  ∃ w', auto_restart Example.never_raises Example.two_events_then_sigint Example.set_order
          Example.signal_by_name Example.py_int Example.no_child
          Example.server_args Example.w0 = (Raise (OSError ENOENT "server"), w')
        ∧ trace w' = trace Example.w0.
Proof.
  edestruct (auto_restart_launch_fails Example.never_raises Example.two_events_then_sigint
               Example.set_order Example.signal_by_name Example.py_int Example.no_child
               Example.server_args SIGTERM (OSError ENOENT "server") Example.w0)
    as (w' & Hrun & Htrace & _).
  - vm_compute; reflexivity.
  - reflexivity.
  - reflexivity.
  - exists w'. split; [exact Hrun|exact Htrace].
Defined.

(** ** The life of an observer *)

Lemma lifecycle_app (m : gmap nat stage) (l1 l2 : list event) :
  lifecycle m (l1 ++ l2) = lifecycle m l1 ≫= λ m', lifecycle m' l2.
Proof.
  revert m. induction l1 as [|e l1 IH]; intros m; simpl; [done|].
  destruct (lifecycle_step m e); [apply IH|done].
Qed.

Lemma lifecycle_same (p : event → Prop) (m : gmap nat stage) (l : list event) :
  (∀ e, p e → lifecycle_step m e = Some m) → Forall p l → lifecycle m l = Some m.
Proof.
  intros Hp. induction 1 as [|e l He _ IH]; simpl; [done|]. by rewrite Hp.
Qed.

Lemma lifecycle_step_quiet (m : gmap nat stage) (e : event) :
  is_observer_event e = false → lifecycle_step m e = Some m.
Proof. by destruct e. Qed.

Lemma staged_fresh acc d r m o : staged acc d [] r m → o ∉ acc → m !! o = None.
Proof.
  intros [_ Hm] Ho. rewrite Hm. unfold stage_of.
  rewrite bool_decide_false by done. rewrite bool_decide_false; [done|apply not_elem_of_nil].
Qed.

Lemma staged_add acc d r m o :
  staged acc d [] r m → o ∉ acc → staged (acc ++ [o]) d [] r (<[o := d]> m).
Proof.
  intros [Hnd Hm] Ho. unfold staged. rewrite app_nil_r in *. split.
  - apply NoDup_app. split; [done|]. split; [|apply NoDup_singleton].
    by intros x Hx ->%list_elem_of_singleton.
  - intros x. rewrite lookup_insert. unfold stage_of. destruct (decide (o = x)) as [->|Hne].
    + rewrite bool_decide_true; [done|]. rewrite elem_of_app, list_elem_of_singleton. by right.
    + rewrite Hm. unfold stage_of.
      rewrite (bool_decide_ext (x ∈ acc ++ [o]) (x ∈ acc)); [done|].
      rewrite elem_of_app, list_elem_of_singleton. intuition congruence.
Qed.

Lemma staged_next done d o rest r m :
  staged done d (o :: rest) r m →
  m !! o = Some r ∧ staged (done ++ [o]) d rest r (<[o := d]> m).
Proof.
  intros [Hnd Hm]. apply NoDup_app in Hnd as (Hd & Hdis & Hr).
  apply NoDup_cons in Hr as [Ho Hr]. split; [|split].
  - rewrite Hm. unfold stage_of. rewrite bool_decide_false.
    2:{ intros Hin. apply (Hdis o Hin), elem_of_cons. by left. }
    rewrite bool_decide_true; [done|]. apply elem_of_cons. by left.
  - rewrite <- app_assoc. simpl. apply NoDup_app. split; [done|].
    split; [done|by apply NoDup_cons].
  - intros x. rewrite lookup_insert. unfold stage_of. destruct (decide (o = x)) as [->|Hne].
    + rewrite bool_decide_true; [done|]. rewrite elem_of_app, list_elem_of_singleton. by right.
    + rewrite Hm. unfold stage_of.
      rewrite (bool_decide_ext (x ∈ done ++ [o]) (x ∈ done)).
      2:{ rewrite elem_of_app, list_elem_of_singleton. intuition congruence. }
      rewrite (bool_decide_ext (x ∈ o :: rest) (x ∈ rest)); [done|].
      rewrite elem_of_cons. intuition congruence.
Qed.

Lemma staged_turn done d r d' m : staged done d [] r m → staged [] d' done d m.
Proof.
  intros [Hnd Hm]. rewrite app_nil_r in Hnd. split; [done|]. intros x.
  rewrite Hm. unfold stage_of. rewrite !(bool_decide_false (x ∈ [])); [|apply not_elem_of_nil].
  by destruct (bool_decide (x ∈ done)).
Qed.

Lemma staged_all done d r m o st : staged done d [] r m → m !! o = Some st → st = d.
Proof.
  intros [_ Hm]. rewrite Hm. unfold stage_of.
  rewrite (bool_decide_false (o ∈ [])); [|apply not_elem_of_nil].
  destruct (bool_decide (o ∈ done)); congruence.
Qed.

Lemma follows_mono {A : Type} (P P' : gmap nat stage → world → Prop) (c : M A)
    (Q Q' : A → gmap nat stage → world → Prop) :
  follows P c Q → (∀ m w, P' m w → P m w) → (∀ a m w, Q a m w → Q' a m w) →
  follows P' c Q'.
Proof.
  intros Hc HP HQ m w Hm. destruct (Hc m w (HP _ _ Hm)) as (l & m' & Ht & Hl & Hq).
  exists l, m'. eauto.
Qed.

Lemma follows_at {A : Type} (P : gmap nat stage → world → Prop) (c : M A)
    (Q : A → gmap nat stage → world → Prop) :
  (∀ m0 w0, P m0 w0 → follows (λ m w, m = m0 ∧ w = w0) c Q) → follows P c Q.
Proof. intros Hc m w Hm. by apply (Hc m w Hm). Qed.

Lemma follows_bind {A B : Type} (P : gmap nat stage → world → Prop) (c : M A)
    (Q : A → gmap nat stage → world → Prop) (k : A → M B)
    (R : B → gmap nat stage → world → Prop) :
  follows P c Q → (∀ a, follows (Q a) (k a) R) → follows P (bind c k) R.
Proof.
  intros Hc Hk m w Hm. rewrite bind_unfold.
  destruct (Hc m w Hm) as (l1 & m1 & Ht1 & Hl1 & HQ).
  destruct (c w) as [[a|e|h] w1]; simpl in *; [|by exists l1, m1..].
  destruct (Hk a m1 w1 (HQ a eq_refl)) as (l2 & m2 & Ht2 & Hl2 & HR).
  exists (l1 ++ l2), m2. by rewrite Ht2, Ht1, <- app_assoc, lifecycle_app, Hl1.
Qed.

Lemma follows_pure {A : Type} (P : gmap nat stage → world → Prop) (c : M A)
    (Q : A → gmap nat stage → world → Prop) :
  (∀ w, (c w).2 = w) → (∀ m w a, P m w → (c w).1 = Ok a → Q a m w) → follows P c Q.
Proof.
  intros Hc HQ m w Hm. exists [], m. rewrite Hc, app_nil_r.
  split; [done|]. split; [done|]. intros a Ha. by eapply HQ.
Qed.

Lemma follows_for_each {A : Type} (P : gmap nat stage → world → Prop) (xs : list A)
    (body : A → M unit) :
  (∀ x, follows P (body x) (λ _, P)) → follows P (for_each xs body) (λ _, P).
Proof.
  intros Hb. induction xs as [|x xs IH]; simpl.
  - by apply follows_pure.
  - eapply follows_bind; [apply Hb|]. intros ?; cbv beta. apply IH.
Qed.

Lemma idles_follows {A : Type} (P : gmap nat stage → world → Prop) (c : M A) :
  idles P c → follows P c (λ _, P).
Proof.
  intros Hc m w Hm. destruct (Hc m w Hm) as (l & Ht & Hl & HP). by exists l, m.
Qed.

Lemma idles_pure {A : Type} (P : gmap nat stage → world → Prop) (c : M A) :
  (∀ w, (c w).2 = w) → idles P c.
Proof. intros Hc m w Hm. exists []. by rewrite Hc, app_nil_r. Qed.

Lemma idles_emits {A : Type} (p : event → Prop) (P : gmap nat stage → world → Prop)
    (c : M A) :
  emits (Forall p) c →
  (∀ m w e, P m w → p e → lifecycle_step m e = Some m) →
  (∀ m, hoare (P m) c (P m)) →
  idles P c.
Proof.
  intros Hc Hp Hh m w Hm. destruct (Hc w) as (l & Ht & Hl). exists l.
  split; [done|]. split; [|by apply Hh].
  apply (lifecycle_same p); [|done]. intros e He. by apply (Hp m w).
Qed.

Lemma idles_bind {A B : Type} (P : gmap nat stage → world → Prop) (c : M A)
    (k : A → M B) :
  idles P c → (∀ a, idles P (k a)) → idles P (bind c k).
Proof.
  intros Hc Hk m w Hm. rewrite bind_unfold.
  destruct (Hc m w Hm) as (l1 & Ht1 & Hl1 & HP).
  destruct (c w) as [[a|e|h] w1]; simpl in *; [|by exists l1..].
  destruct (Hk a m w1 HP) as (l2 & Ht2 & Hl2 & HP2).
  exists (l1 ++ l2). by rewrite Ht2, Ht1, <- app_assoc, lifecycle_app, Hl1.
Qed.

Lemma idles_for_each {A : Type} (P : gmap nat stage → world → Prop) (xs : list A)
    (body : A → M unit) :
  (∀ x, idles P (body x)) → idles P (for_each xs body).
Proof.
  intros Hb. induction xs as [|x xs IH]; simpl; [by apply idles_pure|].
  by apply idles_bind.
Qed.

Lemma follows_try_except (P : gmap nat stage → world → Prop) (body handler : M unit)
    (Q : unit → gmap nat stage → world → Prop) :
  idles P body → (∀ w, (body w).1 ≠ Ok tt) → follows P handler Q →
  follows P (try_except_shutdown body handler) Q.
Proof.
  intros Hb Hn Hh m w Hm. unfold try_except_shutdown.
  destruct (Hb m w Hm) as (l1 & Ht1 & Hl1 & HP). specialize (Hn w).
  destruct (body w) as [[[]|e|h] w1]; simpl in *; [done| |by exists l1, m].
  destruct e; try by exists l1, m.
  destruct (Hh m w1 HP) as (l2 & m2 & Ht2 & Hl2 & HQ).
  exists (l1 ++ l2), m2. by rewrite Ht2, Ht1, <- app_assoc, lifecycle_app, Hl1.
Qed.

Lemma follows_try_finally (P : gmap nat stage → world → Prop) (body final : M unit)
    (Q : unit → gmap nat stage → world → Prop) :
  follows P body Q →
  emits (Forall (λ e, is_observer_event e = false)) final →
  follows P (try_finally body final) (λ _ _ _, True).
Proof.
  intros Hb Hf m w Hm. unfold try_finally.
  destruct (Hb m w Hm) as (l1 & m1 & Ht1 & Hl1 & _).
  destruct (body w) as [[[]|e|h] w1]; simpl in *; [| |by exists l1, m1].
  - destruct (Hf w1) as (l2 & Ht2 & Hl2). exists (l1 ++ l2), m1.
    rewrite Ht2, Ht1, <- app_assoc, lifecycle_app, Hl1. simpl.
    split; [done|]. split; [|done].
    apply (lifecycle_same _ _ _ (lifecycle_step_quiet m1) Hl2).
  - rewrite bind_unfold. destruct (Hf w1) as (l2 & Ht2 & Hl2). exists (l1 ++ l2), m1.
    rewrite lifecycle_app, Hl1. simpl.
    split; [|split; [|done]].
    + destruct (final w1) as [[[]|e'|h] w2]; simpl in *; by rewrite Ht2, Ht1, <- app_assoc.
    + apply (lifecycle_same _ _ _ (lifecycle_step_quiet m1) Hl2).
Qed.

Lemma poll_loop_never_returns (on_event : M unit) (pending : list (list arrival))
    (w : world) :
  (poll_loop on_event pending w).1 ≠ Ok tt.
Proof.
  revert w. induction pending as [|arrived pending IH]; intros w; simpl; [done|].
  rewrite bind_unfold. destruct (sleep on_event arrived w) as [[[]|e|h] w1]; [apply IH|done..].
Qed.

Lemma idles_poll_loop (P : gmap nat stage → world → Prop) (on_event : M unit)
    (pending : list (list arrival)) :
  (∀ m w e, P m w → P m (add_trace e w)) →
  (∀ m w t, P m w → P m (set_signal_table t w)) →
  idles P on_event → idles P (poll_loop on_event pending).
Proof.
  intros P_trace P_table Hon.
  induction pending as [|arrived pending IH]; simpl; [by apply idles_pure|].
  apply idles_bind; [|done]. unfold sleep. apply idles_bind.
  { apply (idles_emits (λ e, is_observer_event e = false)).
    - apply emits_emit. by repeat constructor.
    - intros m w e _ He. by apply lifecycle_step_quiet.
    - intros m w Hm. by apply P_trace. }
  intros ?; cbv beta. apply idles_for_each. intros [signum|]; [|done].
  apply (idles_emits (λ e, is_observer_event e = false)).
  - apply emits_nothing; [done|]. apply deliver_trace.
  - intros m w e _ He. by apply lifecycle_step_quiet.
  - intros m. apply frame_deliver. apply P_table.
Qed.

Section Lifecycle.

Variable load_class : list string → string → result pyclass.
Variable observer_raises : event → option exn.
Variable filesystem : gmap string (result config).
Variable os_pathsep : ascii.
Variable os_path_dirname : string → string.
Variable arrivals : list (list arrival).
Variable set_order : list string → list string.

Lemma follows_observer_call (P Q : gmap nat stage → world → Prop) (e : event) :
  (∀ m w, P m w → ∃ m', lifecycle_step m e = Some m' ∧ Q m' (add_trace e w)) →
  follows P (observer_call observer_raises e) (λ _, Q).
Proof.
  intros He m w Hm. destruct (He m w Hm) as (m' & Hs & HQ). exists [e], m'.
  unfold observer_call. rewrite bind_unfold. cbn [emit modify].
  simpl. rewrite Hs. destruct (observer_raises e); simpl; by eauto.
Qed.

Lemma follows_new_observer cls (m0 : gmap nat stage) (n : nat) :
  m0 !! n = None →
  follows (λ m w, m = m0 ∧ next_observer w = n) (new_observer observer_raises cls)
    (λ o m w, o = n ∧ m = <[n := Created]> m0 ∧ next_observer w = S n).
Proof.
  intros Hn m w [-> Hw]. exists [ENewObserver n cls], (<[n := Created]> m0).
  unfold new_observer, bind, get, modify, observer_call, bind, emit, modify. simpl.
  rewrite Hw, Hn. destruct (observer_raises _); simpl; [done|].
  split; [done|]. split; [done|]. intros a Ha. by simplify_eq.
Qed.

Lemma follows_observe_with o h (on_event : M unit) pathnames r (m0 : gmap nat stage) :
  emits (Forall (λ e, is_observer_event e = false)) on_event →
  m0 !! o = Some Created →
  follows (λ m _, m = m0)
    (observe_with observer_raises arrivals set_order o h on_event pathnames r)
    (λ _ m _, m = <[o := Joined]> m0).
Proof.
  intros Hon Ho. unfold observe_with.
  eapply follows_bind with (Q := λ _ m _, m = m0).
  { apply follows_for_each. intros p. apply follows_observer_call.
    intros m w ->. exists m0. simpl. by rewrite Ho. }
  intros ?; cbv beta. eapply follows_bind with (Q := λ _ m _, m = <[o := Started]> m0).
  { apply follows_observer_call. intros m w ->. eexists. simpl. by rewrite Ho. }
  intros ?; cbv beta. eapply follows_bind with (Q := λ _ m _, m = <[o := Stopped]> m0).
  { apply follows_try_except.
    - apply idles_poll_loop; [done..|].
      apply (idles_emits (λ e, is_observer_event e = false)); [done| |by intros m w Hm].
      intros m w e _ He. by apply lifecycle_step_quiet.
    - apply poll_loop_never_returns.
    - apply follows_observer_call. intros m w ->. eexists. simpl.
      rewrite lookup_insert_eq. split; [done|]. by rewrite insert_insert_eq. }
  intros ?; cbv beta. apply follows_observer_call. intros m w ->. eexists. simpl.
  rewrite lookup_insert_eq. split; [done|]. by rewrite insert_insert_eq.
Qed.

Lemma follows_start_observer cls r f (m0 : gmap nat stage) (n : nat) :
  m0 !! n = None →
  follows (λ m w, m = m0 ∧ next_observer w = n)
    (start_observer load_class observer_raises filesystem os_path_dirname cls r f)
    (λ o m w, o = n ∧ m = <[n := Started]> m0 ∧ next_observer w = S n).
Proof.
  intros Hn. unfold start_observer.
  eapply follows_bind
    with (Q := λ o m w, o = n ∧ m = <[n := Created]> m0 ∧ next_observer w = S n).
  { by apply follows_new_observer. }
  intros o. apply follows_at. intros m1 w1 (-> & -> & Hw1).
  set (P1 := λ (m : gmap nat stage) (w : world),
               m = <[n := Created]> m0 ∧ next_observer w = S n).
  assert (∀ m w e, P1 m w → P1 m (add_trace e w)) as P1_trace by (by intros m w e Hm).
  eapply follows_mono with (P := P1);
    [|by intros m w [-> ->]|intros x m w Hx; exact Hx].
  destruct (filesystem !! f) as [loaded|]; [|by apply follows_pure].
  eapply follows_bind with (Q := λ _, P1); [by apply follows_pure|]. intros cfg.
  eapply follows_bind with (Q := λ _, P1).
  { destruct (cfg_tricks cfg); by apply follows_pure. }
  intros tricks. eapply follows_bind with (Q := λ _, P1).
  { destruct (cfg_python_path cfg) as [pathnames|]; [|by apply follows_pure].
    apply idles_follows, (idles_emits (λ e, is_observer_event e = false)).
    - apply emits_Forall_for_each. intros pathname w.
      exists [ESysPathInsert 0 pathname]. split; [done|]. by repeat constructor.
    - intros m w e _ He. by apply lifecycle_step_quiet.
    - intros m. apply frame_add_to_sys_path; [apply P1_trace|by intros w p Hm]. }
  intros ?; cbv beta. eapply follows_bind with (Q := λ _, P1).
  { apply idles_follows,
      (idles_emits (λ e, ∃ h path, e = ESchedule n h path r)).
    - apply emits_schedule_tricks. eauto.
    - intros m w e [-> _] (h & path & ->). simpl. by rewrite lookup_insert_eq.
    - intros m. apply frame_schedule_tricks. apply P1_trace. }
  intros ?; cbv beta.
  eapply follows_bind
    with (Q := λ _ m w, m = <[n := Started]> m0 ∧ next_observer w = S n).
  { apply follows_observer_call. intros m w [-> Hw]. eexists. simpl.
    rewrite lookup_insert_eq. split; [done|]. by rewrite insert_insert_eq. }
  intros ?; cbv beta. apply follows_pure; [done|]. intros m w x [-> Hw] Hx.
  unfold ret in Hx. simpl in Hx. by simplify_eq.
Qed.

Lemma follows_start_observers cls r fs acc :
  follows (λ m w, staged acc Started [] Started m
                  ∧ Forall (λ o, (o < next_observer w)%nat) acc)
    (start_observers load_class observer_raises filesystem os_path_dirname cls r fs acc)
    (λ obs m _, staged obs Started [] Started m).
Proof.
  revert acc. induction fs as [|f fs IH]; intros acc; simpl.
  - apply follows_pure; [done|]. intros m w x [Hm _] Hx. unfold ret in Hx. simpl in Hx. by simplify_eq.
  - apply follows_at. intros m0 w0 [Hst Hlt].
    assert (next_observer w0 ∉ acc) as Hfresh.
    { intros Hin. rewrite Forall_forall in Hlt. specialize (Hlt _ Hin). lia. }
    eapply follows_bind.
    { eapply follows_mono;
        [apply (follows_start_observer cls r f m0 (next_observer w0))| |].
      - by eapply staged_fresh.
      - by intros m w [-> ->].
      - intros x m w Hx. exact Hx. }
    intros o. eapply follows_mono; [apply (IH (acc ++ [o]))| |done].
    intros m w (-> & -> & Hw). split; [by apply staged_add|].
    rewrite Hw. apply Forall_app. split; [|by repeat constructor].
    eapply Forall_impl; [done|]. simpl. lia.
Qed.

Lemma follows_stop_observers rest done :
  follows (λ m _, staged done Stopped rest Started m)
    (stop_observers observer_raises rest)
    (λ _ m _, staged (done ++ rest) Stopped [] Started m).
Proof.
  unfold stop_observers. revert done. induction rest as [|o rest IH]; intros done; simpl.
  - apply follows_pure; [done|]. intros m w a Hm _. by rewrite app_nil_r.
  - eapply follows_bind
      with (Q := λ _ m _, staged (done ++ [o]) Stopped rest Started m).
    + eapply follows_bind with (Q := λ _ m _, staged done Stopped (o :: rest) Started m).
      * apply follows_observer_call. intros m w Hm. exists m. simpl.
        by destruct (staged_next _ _ _ _ _ _ Hm) as [-> _].
      * intros ?; cbv beta. apply follows_observer_call. intros m w Hm. eexists. simpl.
        by destruct (staged_next _ _ _ _ _ _ Hm) as [-> Hnext].
    + intros ?; cbv beta. eapply follows_mono; [apply (IH (done ++ [o]))|intros m w Hm; exact Hm|].
      intros x m w. by rewrite <- app_assoc.
Qed.

Lemma follows_join_observers rest done :
  follows (λ m _, staged done Joined rest Stopped m)
    (join_observers observer_raises rest)
    (λ _ m _, staged (done ++ rest) Joined [] Stopped m).
Proof.
  unfold join_observers. revert done. induction rest as [|o rest IH]; intros done; simpl.
  - apply follows_pure; [done|]. intros m w a Hm _. by rewrite app_nil_r.
  - eapply follows_bind
      with (Q := λ _ m _, staged (done ++ [o]) Joined rest Stopped m).
    + apply follows_observer_call. intros m w Hm. eexists. simpl.
      by destruct (staged_next _ _ _ _ _ _ Hm) as [-> Hnext].
    + intros ?; cbv beta. eapply follows_mono; [apply (IH (done ++ [o]))|intros m w Hm; exact Hm|].
      intros x m w. by rewrite <- app_assoc.
Qed.

Lemma follows_run_observers observers :
  follows (λ m _, staged observers Started [] Started m)
    (run_observers observer_raises arrivals observers)
    (λ _ m _, staged observers Joined [] Stopped m).
Proof.
  unfold run_observers.
  eapply follows_bind with (Q := λ _ m _, staged observers Stopped [] Started m).
  - apply follows_try_except.
    + apply idles_poll_loop; [done..|]. by apply idles_pure.
    + apply poll_loop_never_returns.
    + eapply follows_mono; [apply (follows_stop_observers observers [])| |done].
      intros m w Hm. by eapply staged_turn.
  - intros ?; cbv beta. eapply follows_mono; [apply (follows_join_observers observers [])| |done].
    intros m w Hm. by eapply staged_turn.
Qed.

(** X24. Whatever the configuration files hold, whatever the observers raise
    and whatever arrives, the calls a run of [tricks_from] makes on observers
    keep to the protocol: every observer is one it has created, handlers are
    scheduled on it only before it is started, it is stopped only after it
    was started and joined only after it was stopped; and [tricks_from]
    returns only when every observer it has created has been joined. *)
Theorem tricks_from_lifecycle (args : tricks_args) (w : world) :
  ∃ added m,
    trace (tricks_from load_class observer_raises filesystem os_pathsep os_path_dirname
             arrivals args w).2 = trace w ++ added
    ∧ lifecycle ∅ added = Some m
    ∧ ((tricks_from load_class observer_raises filesystem os_pathsep os_path_dirname
          arrivals args w).1 = Ok tt →
       ∀ o st, m !! o = Some st → st = Joined).
Proof.
  assert (follows (λ m _, m = ∅)
            (tricks_from load_class observer_raises filesystem os_pathsep os_path_dirname
               arrivals args)
            (λ _ m _, ∃ obs, staged obs Joined [] Stopped m)) as Hrun.
  { unfold tricks_from. eapply follows_bind with (Q := λ _ m _, m = ∅).
    { apply idles_follows, (idles_emits (λ e, is_observer_event e = false)).
      - apply emits_Forall_for_each. intros pathname w'.
        exists [ESysPathInsert 0 pathname]. split; [done|]. by repeat constructor.
      - intros m w' e _ He. by apply lifecycle_step_quiet.
      - by intros m w' Hm. }
    intros ?; cbv beta. eapply follows_bind.
    { eapply follows_mono; [apply follows_start_observers| |intros x m w' Hx; exact Hx].
      intros m w' ->. split; [|done]. split; [constructor|done]. }
    intros obs. eapply follows_mono; [apply follows_run_observers|done|].
    intros x m w' Hm. by exists obs. }
  destruct (Hrun ∅ w eq_refl) as (added & m & Ht & Hl & Hok).
  exists added, m. split; [done|]. split; [done|]. intros Hr o st Ho.
  destruct (Hok tt Hr) as [obs Hobs]. by eapply staged_all.
Qed.

(** X25. Whatever the observer raises and whatever arrives, with a handler
    that makes no call on an observer, the calls [observe_with] makes on an
    observer that has been created and not started keep to the protocol:
    it schedules, then starts, stops only after the start and joins only
    after the stop; and it returns only when the observer has been
    joined. *)
Theorem observe_with_lifecycle o h (on_event : M unit) pathnames r
    (m : gmap nat stage) (w : world) :
  emits (Forall (λ e, is_observer_event e = false)) on_event →
  m !! o = Some Created →
  ∃ added m',
    trace (observe_with observer_raises arrivals set_order o h on_event pathnames r w).2
    = trace w ++ added
    ∧ lifecycle m added = Some m'
    ∧ ((observe_with observer_raises arrivals set_order o h on_event pathnames r w).1
       = Ok tt →
       m' = <[o := Joined]> m).
Proof.
  intros Hon Ho.
  destruct (follows_observe_with o h on_event pathnames r m Hon Ho m w eq_refl)
    as (added & m' & Ht & Hl & Hok).
  exists added, m'. split; [done|]. split; [done|]. intros Hr. by apply (Hok tt).
Qed.

End Lifecycle.

Lemma observe_with_lifecycle_witness :
  ∃ added m',
    trace (observe_with Example.never_raises Example.event_then_sigint Example.set_order 0
             Example.logger_handler (ret tt) ["src"; "."; "src"]%string true
             Example.w_installed).2
    = trace Example.w_installed ++ added
    ∧ lifecycle {[ 0%nat := Created ]} added = Some m'.
Proof.
  destruct (observe_with_lifecycle Example.never_raises Example.event_then_sigint
              Example.set_order 0 Example.logger_handler (ret tt) ["src"; "."; "src"]%string true
              {[ 0%nat := Created ]} Example.w_installed)
    as (added & m' & Ht & Hl & _).
  - by apply emits_nothing.
  - vm_compute; reflexivity.
  - exists added, m'. split; [exact Ht|exact Hl].
Defined.

Section LifecycleRestart.

Variable observer_raises : event → option exn.
Variable arrivals : list (list arrival).
Variable set_order : list string → list string.
Variable signal_by_name : string → option Z.
Variable py_int : string → option Z.
Variable child : nat → child_profile.

Lemma emits_trick_stop_quiet (t : AutoRestartTrick) :
  emits (Forall (λ e, is_observer_event e = false)) (trick_stop child t).
Proof.
  intros w. destruct (process w) as [pid|] eqn:Hp.
  - destruct (stop_completes child t pid) eqn:Hc.
    + rewrite (trick_stop_spec _ _ _ pid) by done. simpl. eexists. split; [done|].
      apply stop_sequence_no_observer.
    + rewrite (trick_stop_type_error _ _ _ pid) by done. simpl. eexists.
      split; [done|]. by repeat constructor.
  - rewrite trick_stop_absent by done. exists []. by rewrite app_nil_r.
Qed.

Lemma emits_trick_start_quiet (t : AutoRestartTrick) :
  emits (Forall (λ e, is_observer_event e = false)) (trick_start child t).
Proof.
  intros w. destruct (process w) as [pid|] eqn:Hp.
  - rewrite (trick_start_running _ _ _ pid) by done. exists []. by rewrite app_nil_r.
  - destruct (launch_error (child (next_pid w))) as [e|] eqn:Hl.
    + rewrite (trick_start_fails _ _ _ e) by done. exists []. simpl. by rewrite app_nil_r.
    + rewrite trick_start_spec by done. simpl. eexists. split; [done|].
      by repeat constructor.
Qed.

Lemma follows_try_except_pass (P : gmap nat stage → world → Prop) (body : M unit)
    (Q : unit → gmap nat stage → world → Prop) :
  follows P body Q → follows P (try_except_shutdown body (ret tt)) (λ _ _ _, True).
Proof.
  intros Hb m w Hm. unfold try_except_shutdown.
  destruct (Hb m w Hm) as (l1 & m1 & Ht1 & Hl1 & _).
  destruct (body w) as [[[]|e|h] w1]; simpl in *; [by exists l1, m1| |by exists l1, m1].
  destruct e; by exists l1, m1.
Qed.

(** X26. Whatever the observer raises and whatever arrives, the calls a run
    of [auto_restart] makes on observers keep to the protocol: it calls only
    an observer it has created, schedules on it before it starts it, stops
    it only after the start and joins it only after the stop. *)
Theorem auto_restart_lifecycle (args : auto_restart_args) (w : world) :
  ∃ added m,
    trace (auto_restart observer_raises arrivals set_order signal_by_name py_int child args w).2
    = trace w ++ added
    ∧ lifecycle ∅ added = Some m.
Proof.
  set (P0 := λ (m : gmap nat stage) (w' : world),
               m = ∅ ∧ next_observer w' = next_observer w).
  assert (follows P0
            (auto_restart observer_raises arrivals set_order signal_by_name py_int child args)
            (λ _ _ _, True)) as Hrun.
  { unfold auto_restart. eapply follows_bind with (Q := λ _, P0).
    { apply follows_pure; [|by intros m w' a Hm _]. intros w'.
      destruct (parse_stop_signal_pure signal_by_name py_int (ar_signal args)) as [r Hr].
      by rewrite Hr. }
    intros signum. eapply follows_bind with (Q := λ _, P0).
    { apply idles_follows, (idles_emits (λ e, is_observer_event e = false)).
      - apply emits_nothing; [done|]. intros w'. by rewrite install_spec.
      - intros m w' e _ He. by apply lifecycle_step_quiet.
      - intros m w' Hm. by rewrite install_spec. }
    intros ?; cbv beta. destruct (parse_patterns _ _) as [pats ipats].
    eapply follows_bind with (Q := λ _, P0).
    { apply idles_follows, (idles_emits (λ e, is_observer_event e = false)).
      - apply emits_trick_start_quiet.
      - intros m w' e _ He. by apply lifecycle_step_quiet.
      - intros m w' [Hm Hw']. split; [done|]. rewrite <- Hw'.
        destruct (process w') as [pid|] eqn:Hp.
        + by rewrite (trick_start_running _ _ _ pid).
        + destruct (launch_error (child (next_pid w'))) as [e|] eqn:Hl.
          * by rewrite (trick_start_fails _ _ _ e).
          * by rewrite trick_start_spec. }
    intros ?; cbv beta.
    eapply follows_bind.
    { apply (follows_new_observer observer_raises _ ∅ (next_observer w)). done. }
    intros o. apply follows_at. intros m1 w1 (-> & -> & Hw1).
    eapply follows_try_finally; [|apply emits_trick_stop_quiet].
    eapply follows_try_except_pass.
    eapply follows_mono;
      [apply (follows_observe_with observer_raises arrivals set_order (next_observer w) _ _ _ _
                (<[next_observer w := Created]> ∅))
      |by intros m w' [-> _]|intros x m w' Hx; exact Hx].
    - apply emits_Forall_bind; [apply emits_trick_stop_quiet|].
      intros ?. apply emits_trick_start_quiet.
    - by rewrite lookup_insert_eq. }
  destruct (Hrun ∅ w) as (added & m & Ht & Hl & _); [done|].
  by exists added, m.
Qed.

End LifecycleRestart.
